(** * Eventora backend: inventory and booking consistency

    A shallow embedding of the booking routes (routes/booking.routes.js),
    of the Booking and Event models with their pre-save hooks
    (models/booking.model.js, models/event.model.js) and of the event
    update and delete routes (routes/event.routes.js), followed by the
    properties of the ticket inventory, of the booking life cycle and of
    the identifier counters.

    Conventions of the embedding:
    - a MongoDB collection is a list of documents; the position of a
      document in the list plays the role of its [_id], so that
      [document.save()] writes back at the position where [findOne]
      found it;
    - JavaScript numbers holding ticket counts and identifiers are
      integers ([Z]); prices are rationals ([Q]), the rounding of
      doubles is not modelled;
    - every [await]ed write can be made to throw by a fault oracle
      ([Faults]), which stands for the storage being unreachable. *)

From Stdlib Require Import ZArith QArith Lia.
From stdpp Require Import gmap strings list.

Close Scope Q_scope.
Local Open Scope Z_scope.

(** ** Documents *)

(** [req.user]: the authenticated identity put on the request by the
    [auth] middleware. *)
Inductive Role := RoleUser | RoleAdmin.

Record User := mkUser { _id : string; role : Role }.

Inductive Status := active | cancelled.

Module Event.
(** models/event.model.js, restricted to the identifier, the price and
    the two inventory fields. [id] is undefined until the pre-save
    hook has run. *)
Record t := mk {
  id : option Z;
  price : Q;
  totalTickets : Z;
  availableTickets : Z
}.

Definition set_availableTickets (n : Z) (e : t) : t :=
  mk (id e) (price e) (totalTickets e) n.

Definition set_id (n : Z) (e : t) : t :=
  mk (Some n) (price e) (totalTickets e) (availableTickets e).

(** Validators run by [save()] on the required paths:
    price [min: 0], totalTickets [min: 1], availableTickets [min: 0]. *)
Definition validate (e : t) : bool :=
  Qle_bool 0 (price e) && (1 <=? totalTickets e) && (0 <=? availableTickets e).
End Event.

Module Booking.
(** models/booking.model.js. [event] holds the numeric id of the
    event, [user] the owner's [_id]. *)
Record t := mk {
  id : option Z;
  user : string;
  event : Z;
  quantity : Z;
  totalPrice : Q;
  status : Status
}.

Definition set_status (s : Status) (b : t) : t :=
  mk (id b) (user b) (event b) (quantity b) (totalPrice b) s.

Definition set_id (n : Z) (b : t) : t :=
  mk (Some n) (user b) (event b) (quantity b) (totalPrice b) (status b).

(** Validators run by [save()]: quantity [min: 1], totalPrice [min: 0];
    the enum of [status] holds by typing. *)
Definition validate (b : t) : bool :=
  (1 <=? quantity b) && Qle_bool 0 (totalPrice b).

Definition is_active (b : t) : bool :=
  match status b with active => true | cancelled => false end.
End Booking.

(** ** The store *)

(** Modelled from the spec: the Counter model (models/counter.model.js)
    is absent from the sources; following the spec it is one record per
    namespace holding the last issued integer ([seq]), here a finite map
    from the namespace to that integer. *)
Record Db := mkDb {
  events : list Event.t;
  bookings : list Booking.t;
  counters : gmap string Z
}.

Definition set_events (es : list Event.t) (db : Db) : Db :=
  mkDb es (bookings db) (counters db).
Definition set_bookings (bs : list Booking.t) (db : Db) : Db :=
  mkDb (events db) bs (counters db).
Definition set_counters (c : gmap string Z) (db : Db) : Db :=
  mkDb (events db) (bookings db) c.

(** Which of the awaited writes of a request throw. *)
Record Faults := mkFaults {
  eventSaveFails : bool;
  counterFails : bool;
  bookingSaveFails : bool
}.

Definition noFaults : Faults := mkFaults false false false.

(** ** The sequence allocator *)

(** [Counter.findOneAndUpdate({ name }, { $inc: { seq: 1 } },
    { new: true, upsert: true })]: one atomic increment-and-fetch; the
    upsert creates the record with [seq = 1]. Returns [counter.seq]. *)
Definition nextSeq (name : string) (c : gmap string Z) : Z * gmap string Z :=
  let seq := default 0 (c !! name) + 1 in
  (seq, <[name := seq]> c).

Arguments nextSeq : simpl never.

(** The last value issued for a namespace, 0 when it has no record. *)
Definition lastIssued (c : gmap string Z) (name : string) : Z :=
  default 0 (c !! name).

(** A run of allocator calls, each paired with the value it returned. *)
Fixpoint allocate (names : list string) (c : gmap string Z)
  : list (string * Z) * gmap string Z :=
  match names with
  | [] => ([], c)
  | n :: rest =>
      let '(v, c1) := nextSeq n c in
      let '(out, c2) := allocate rest c1 in
      ((n, v) :: out, c2)
  end.

(** ** Queries and writes *)

(** [Event.findOne({ id })] and [Booking.findOne({ id })]: the first
    document whose [id] matches, together with its position. *)
Definition findEvent (eid : Z) (db : Db) : option (nat * Event.t) :=
  list_find (λ e, Event.id e = Some eid) (events db).

Definition findBooking (bid : Z) (db : Db) : option (nat * Booking.t) :=
  list_find (λ b, Booking.id b = Some bid) (bookings db).

(** [event.save()] on a document loaded from position [i]: validation,
    then the write. [None] is a thrown error. *)
Definition saveEvent (fl : Faults) (i : nat) (e : Event.t) (db : Db) : option Db :=
  if negb (Event.validate e) then None
  else if eventSaveFails fl then None
  else Some (set_events (<[i := e]> (events db)) db).

(** [booking.save()] on a document loaded from position [j]
    ([isNew] is false: the pre-save hook leaves the id alone). *)
Definition saveBooking (fl : Faults) (j : nat) (b : Booking.t) (db : Db) : option Db :=
  if negb (Booking.validate b) then None
  else if bookingSaveFails fl then None
  else Some (set_bookings (<[j := b]> (bookings db)) db).

(** [booking.save()] on a new document: validation, then the pre-save
    hook takes the next [bookingId], then the insert, which the unique
    index on [id] refuses when the id is already stored. The counter
    keeps its increment when the insert throws. *)
Definition idTaken (n : Z) (bs : list Booking.t) : bool :=
  bool_decide (Exists (λ b, Booking.id b = Some n) bs).

Definition saveNewBooking (fl : Faults) (b : Booking.t) (db : Db)
  : option Booking.t * Db :=
  if negb (Booking.validate b) then (None, db)
  else if counterFails fl then (None, db)
  else
    let '(seq, c) := nextSeq "bookingId" (counters db) in
    let db1 := set_counters c db in
    let b1 := Booking.set_id seq b in
    if bookingSaveFails fl || idTaken seq (bookings db) then (None, db1)
    else (Some b1, set_bookings (bookings db ++ [b1]) db1).

(** ** Requests and responses *)

(** [req.body.eventId] as the handler sees it: absent or empty, a value
    that does not cast to a number, or a number. *)
Inductive RawId := IdEmpty | IdNotNumber | IdNum (n : Z).

(** [req.body] of the create route; [quantity] is [Some q] when the
    value reads as the integer [q], as [isInt] requires. *)
Record CreateBody := mkCreateBody { eventId : RawId; quantity : option Z }.

(** [req.body] of the event update route, as form fields: [Some] when
    the field is present. The other fields of an event are outside the
    model. *)
Record UpdateBody := mkUpdateBody {
  u_price : option Q;
  u_totalTickets : option Z;
  u_availableTickets : option Z
}.

Inductive Response :=
  | Created (b : Booking.t)          (* 201, the booking *)
  | ValidationErrors                 (* 400, { errors } *)
  | EventNotFound                    (* 404, 'Event not found' *)
  | NotEnoughTickets                 (* 400, 'Not enough tickets available' *)
  | ErrorCreatingBooking             (* 500, 'Error creating booking' *)
  | CancelledOk (b : Booking.t)      (* 200, 'Booking cancelled successfully' *)
  | BookingNotFound                  (* 404, 'Booking not found' *)
  | NotAuthorized                    (* 403, 'Not authorized to cancel this booking' *)
  | AlreadyCancelled                 (* 400, 'Booking is already cancelled' *)
  | InvalidBookingId                 (* 400, 'Invalid booking ID' *)
  | ErrorCancellingBooking           (* 500, 'Error cancelling booking' *)
  | AdminRequired                    (* 403, from the isAdmin middleware *)
  | InvalidEventId                   (* 400, 'Invalid event ID' *)
  | CannotReduceTickets              (* 400, 'Cannot reduce total tickets ...' *)
  | EventSaved (e : Event.t)         (* 200 or 201, the event *)
  | EventDeleted                     (* 200, 'Event deleted successfully' *)
  | ErrorSavingEvent.                (* 500, 'Error updating event' / 'Error creating event' *)

Definition statusCode (r : Response) : Z :=
  match r with
  | Created _ => 201
  | CancelledOk _ | EventSaved _ | EventDeleted => 200
  | ValidationErrors | NotEnoughTickets | AlreadyCancelled
  | InvalidBookingId | InvalidEventId | CannotReduceTickets => 400
  | NotAuthorized | AdminRequired => 403
  | EventNotFound | BookingNotFound => 404
  | ErrorCreatingBooking | ErrorCancellingBooking | ErrorSavingEvent => 500
  end.

Definition isServerError (r : Response) : bool := statusCode r =? 500.

(** ** routes/booking.routes.js *)

(** The express-validator chain of the create route:
    [body('eventId').notEmpty()], [body('quantity').isInt({ min: 1 })]. *)
Definition validCreateBody (body : CreateBody) : option (RawId * Z) :=
  match eventId body, quantity body with
  | IdEmpty, _ => None
  | _, None => None
  | rid, Some q => if 1 <=? q then Some (rid, q) else None
  end.

(** [new Booking({ user, event, quantity, totalPrice })]; [status]
    takes its default. *)
Definition newBooking (u : User) (eid q : Z) (p : Q) : Booking.t :=
  Booking.mk None (_id u) eid q (Qmult p (inject_Z q)) active.

(** [router.post('/')]. *)
Definition createBooking (fl : Faults) (u : User) (body : CreateBody) (db : Db)
  : Response * Db :=
  match validCreateBody body with
  | None => (ValidationErrors, db)
  | Some (IdEmpty, _) | Some (IdNotNumber, _) =>
      (* the cast of the query to a number throws *)
      (ErrorCreatingBooking, db)
  | Some (IdNum eid, q) =>
      match findEvent eid db with
      | None => (EventNotFound, db)
      | Some (i, event) =>
          if Event.availableTickets event <? q then (NotEnoughTickets, db)
          else
            let booking := newBooking u eid q (Event.price event) in
            let event1 :=
              Event.set_availableTickets (Event.availableTickets event - q) event in
            match saveEvent fl i event1 db with
            | None => (ErrorCreatingBooking, db)
            | Some db1 =>
                match saveNewBooking fl booking db1 with
                | (None, db2) => (ErrorCreatingBooking, db2)
                | (Some b, db2) => (Created b, db2)
                end
            end
      end
  end.

(** [router.put('/:id/cancel')]; [param] is [parseInt(req.params.id)],
    [None] when that is [NaN]. *)
Definition cancelBooking (fl : Faults) (u : User) (param : option Z) (db : Db)
  : Response * Db :=
  match param with
  | None => (InvalidBookingId, db)
  | Some bookingId =>
      match findBooking bookingId db with
      | None => (BookingNotFound, db)
      | Some (j, booking) =>
          if negb (String.eqb (Booking.user booking) (_id u)) then (NotAuthorized, db)
          else
            match Booking.status booking with
            | cancelled => (AlreadyCancelled, db)
            | active =>
                match findEvent (Booking.event booking) db with
                | None =>
                    (* [event] is null: reading its field throws *)
                    (ErrorCancellingBooking, db)
                | Some (i, event) =>
                    let event1 :=
                      Event.set_availableTickets
                        (Event.availableTickets event + Booking.quantity booking) event in
                    match saveEvent fl i event1 db with
                    | None => (ErrorCancellingBooking, db)
                    | Some db1 =>
                        let booking1 := Booking.set_status cancelled booking in
                        match saveBooking fl j booking1 db1 with
                        | None => (ErrorCancellingBooking, db1)
                        | Some db2 => (CancelledOk booking1, db2)
                        end
                    end
                end
            end
      end
  end.

(** ** routes/event.routes.js *)

(** Modelled from the spec: the [isAdmin] middleware
    (middleware/auth.middleware.js) is absent from the sources. The
    spec speaks of administrators, and the routes document '403:
    Forbidden - Admin access required': the middleware lets the users
    with the administrator role through and answers 403 to the others. *)
Definition isAdmin (u : User) : bool :=
  match role u with RoleAdmin => true | RoleUser => false end.

(** [router.put('/:id')]: a new [totalTickets] moves [availableTickets]
    by the same difference; then [Object.assign(event, updates)] and
    [event.save()]. *)
Definition updateEvent (fl : Faults) (u : User) (param : option Z)
    (body : UpdateBody) (db : Db) : Response * Db :=
  if negb (isAdmin u) then (AdminRequired, db)
  else
    match param with
    | None => (InvalidEventId, db)
    | Some eid =>
        match findEvent eid db with
        | None => (EventNotFound, db)
        | Some (i, event) =>
            let avail :=
              match u_totalTickets body with
              | Some newTotal =>
                  Some (Event.availableTickets event + (newTotal - Event.totalTickets event))
              | None => u_availableTickets body
              end in
            if match u_totalTickets body, avail with
               | Some _, Some a => a <? 0
               | _, _ => false
               end
            then (CannotReduceTickets, db)
            else
              let event1 :=
                Event.mk (Event.id event)
                  (default (Event.price event) (u_price body))
                  (default (Event.totalTickets event) (u_totalTickets body))
                  (default (Event.availableTickets event) avail) in
              match saveEvent fl i event1 db with
              | None => (ErrorSavingEvent, db)
              | Some db1 => (EventSaved event1, db1)
              end
        end
    end.

(** [router.delete('/:id')]: [Event.findOneAndDelete({ id })]. *)
Definition deleteEvent (u : User) (param : option Z) (db : Db) : Response * Db :=
  if negb (isAdmin u) then (AdminRequired, db)
  else
    match param with
    | None => (InvalidEventId, db)
    | Some eid =>
        match findEvent eid db with
        | None => (EventNotFound, db)
        | Some (i, _) => (EventDeleted, set_events (delete i (events db)) db)
        end
    end.

(** [event.save()] on a new document, with the pre-save hook of the
    event model taking the next [eventId]. *)
Definition eventIdTaken (n : Z) (es : list Event.t) : bool :=
  bool_decide (Exists (λ e, Event.id e = Some n) es).

Definition saveNewEvent (fl : Faults) (e : Event.t) (db : Db) : option Event.t * Db :=
  if negb (Event.validate e) then (None, db)
  else if counterFails fl then (None, db)
  else
    let '(seq, c) := nextSeq "eventId" (counters db) in
    let db1 := set_counters c db in
    let e1 := Event.set_id seq e in
    if eventSaveFails fl || eventIdTaken seq (events db) then (None, db1)
    else (Some e1, set_events (events db ++ [e1]) db1).

(** [router.post('/')] of the event routes, after the image upload:
    [totalTickets] passed [isInt({ min: 1 })], and the new event starts
    with [availableTickets = totalTickets]. *)
Definition createEvent (fl : Faults) (u : User) (p : Q) (total : option Z) (db : Db)
  : Response * Db :=
  if negb (isAdmin u) then (AdminRequired, db)
  else
    match total with
    | None => (ValidationErrors, db)
    | Some n =>
        if n <? 1 then (ValidationErrors, db)
        else
          match saveNewEvent fl (Event.mk None p n n) db with
          | (None, db1) => (ErrorSavingEvent, db1)
          | (Some e, db1) => (EventSaved e, db1)
          end
    end.

(** ** Runs of requests, one at a time *)

Inductive Op :=
  | OpCreate (u : User) (body : CreateBody)
  | OpCancel (u : User) (param : option Z)
  | OpUpdateEvent (u : User) (param : option Z) (body : UpdateBody)
  | OpDeleteEvent (u : User) (param : option Z)
  | OpCreateEvent (u : User) (p : Q) (total : option Z).

(** The two operations of the booking routes. *)
Definition isBookingOp (op : Op) : bool :=
  match op with
  | OpCreate _ _ | OpCancel _ _ => true
  | _ => false
  end.

Definition step (fl : Faults) (op : Op) (db : Db) : Response * Db :=
  match op with
  | OpCreate u body => createBooking fl u body db
  | OpCancel u param => cancelBooking fl u param db
  | OpUpdateEvent u param body => updateEvent fl u param body db
  | OpDeleteEvent u param => deleteEvent u param db
  | OpCreateEvent u p total => createEvent fl u p total db
  end.

Fixpoint run (ops : list (Faults * Op)) (db : Db) : list Response * Db :=
  match ops with
  | [] => ([], db)
  | (fl, op) :: rest =>
      let '(r, db1) := step fl op db in
      let '(rs, db2) := run rest db1 in
      (r :: rs, db2)
  end.

(** Σ of the quantities of the active bookings on event [eid]. *)
Definition countsFor (eid : Z) (b : Booking.t) : bool :=
  Booking.is_active b && (Booking.event b =? eid).

Fixpoint activeQuantity (eid : Z) (bs : list Booking.t) : Z :=
  match bs with
  | [] => 0
  | b :: rest =>
      (if countsFor eid b then Booking.quantity b else 0) + activeQuantity eid rest
  end.

(** The inventory equation for one event of the store. *)
Definition balanced (db : Db) (e : Event.t) : Prop :=
  ∀ eid, Event.id e = Some eid →
    Event.availableTickets e + activeQuantity eid (bookings db) = Event.totalTickets e.

(** What one booking adds to the sum for event [eid]. *)
Definition contribution (eid : Z) (b : Booking.t) : Z :=
  if countsFor eid b then Booking.quantity b else 0.

(** Distinct event ids, and the inventory equation for every event. *)
Definition storeBalanced (db : Db) : Prop :=
  NoDup (Event.id <$> events db) ∧ ∀ e, e ∈ events db → balanced db e.

(** Initial stores of the inventory equation: no booking yet, distinct
    event ids (the unique index on [id]) and every event with all of its
    tickets available. *)
Definition fresh (db : Db) : Prop :=
  bookings db = [] ∧
  NoDup (Event.id <$> events db) ∧
  ∀ e, e ∈ events db → Event.availableTickets e = Event.totalTickets e.

(** The last [bookingId] issued bounds every stored booking id, so the
    next one is not refused by the unique index. *)
Definition idsBelowCounter (db : Db) : Prop :=
  ∀ b n, b ∈ bookings db → Booking.id b = Some n →
    n ≤ default 0 (counters db !! "bookingId").

(** The fields of a booking that are set at creation. *)
Definition sameCore (b b' : Booking.t) : Prop :=
  Booking.id b' = Booking.id b ∧
  Booking.user b' = Booking.user b ∧
  Booking.event b' = Booking.event b ∧
  Booking.quantity b' = Booking.quantity b ∧
  Booking.totalPrice b' = Booking.totalPrice b.

Definition isCreated (r : Response) : bool :=
  match r with Created _ => true | _ => false end.

Definition isNotEnough (r : Response) : bool :=
  match r with NotEnoughTickets => true | _ => false end.

(** How many responses of a run satisfy [p]. *)
Definition countIf (p : Response → bool) (rs : list Response) : nat :=
  length (List.filter p rs).

(** [M] reservation attempts of quantity 1 on event [eid], one per user. *)
Definition attempt (eid : Z) (u : User) : Faults * Op :=
  (noFaults, OpCreate u (mkCreateBody (IdNum eid) (Some 1))).

(** A request leaves the bookings alone, appends one, or flips one
    active booking to cancelled in place. *)
Inductive BookingsChange (bs : list Booking.t) : list Booking.t → Prop :=
  | Unchanged : BookingsChange bs bs
  | Appended b1 : BookingsChange bs (bs ++ [b1])
  | Flipped j b :
      bs !! j = Some b → Booking.status b = active →
      BookingsChange bs (<[j := Booking.set_status cancelled b]> bs).

(** ** Create requests in flight together

    The handler of the create route gives the event loop a chance to run
    another request at each [await]: after [Event.findOne], after
    [event.save()], and inside [booking.save()] after the counter update
    of the pre-save hook. A task records how far a request has come and
    the values it holds in its local variables. *)
Module Interleaved.

Inductive Task :=
  | Start (fl : Faults) (u : User) (body : CreateBody)
      (* nothing awaited yet *)
  | Loaded (fl : Faults) (u : User) (eid q : Z) (i : nat) (event : Event.t)
      (* [event] is the document read by findOne; the check passed and
         [event.save()] is pending *)
  | EventWritten (fl : Faults) (booking : Booking.t)
      (* [event.save()] resolved; [booking.save()] is pending *)
  | IdAssigned (fl : Faults) (booking : Booking.t)
      (* the pre-save hook set [booking.id]; the insert is pending *)
  | Done (r : Response).

(** One storage operation of a task, with the synchronous code that
    follows it up to the next [await]. *)
Definition advance (t : Task) (db : Db) : Task * Db :=
  match t with
  | Start fl u body =>
      match validCreateBody body with
      | None => (Done ValidationErrors, db)
      | Some (IdEmpty, _) | Some (IdNotNumber, _) => (Done ErrorCreatingBooking, db)
      | Some (IdNum eid, q) =>
          match findEvent eid db with
          | None => (Done EventNotFound, db)
          | Some (i, event) =>
              if Event.availableTickets event <? q then (Done NotEnoughTickets, db)
              else (Loaded fl u eid q i event, db)
          end
      end
  | Loaded fl u eid q i event =>
      let booking := newBooking u eid q (Event.price event) in
      let event1 :=
        Event.set_availableTickets (Event.availableTickets event - q) event in
      match saveEvent fl i event1 db with
      | None => (Done ErrorCreatingBooking, db)
      | Some db1 => (EventWritten fl booking, db1)
      end
  | EventWritten fl booking =>
      if negb (Booking.validate booking) then (Done ErrorCreatingBooking, db)
      else if counterFails fl then (Done ErrorCreatingBooking, db)
      else
        let '(seq, c) := nextSeq "bookingId" (counters db) in
        (IdAssigned fl (Booking.set_id seq booking), set_counters c db)
  | IdAssigned fl booking =>
      if bookingSaveFails fl
         || match Booking.id booking with
            | Some n => idTaken n (bookings db)
            | None => false
            end
      then (Done ErrorCreatingBooking, db)
      else (Done (Created booking), set_bookings (bookings db ++ [booking]) db)
  | Done r => (Done r, db)
  end.

(** The event loop resumes task [k]. *)
Definition resume (k : nat) (st : list Task * Db) : list Task * Db :=
  match st.1 !! k with
  | None => st
  | Some t => let '(t1, db1) := advance t st.2 in (<[k := t1]> st.1, db1)
  end.

(** A schedule is the order in which the tasks are resumed. *)
Definition interleave (schedule : list nat) (st : list Task * Db) : list Task * Db :=
  foldl (λ s k, resume k s) st schedule.

Definition response (t : Task) : option Response :=
  match t with Done r => Some r | _ => None end.

(** The responses sent so far. *)
Definition responses (ts : list Task) : list Response := omap response ts.

End Interleaved.

(** ** Favorites (routes/event.routes.js)

    The favorite routes and the display helpers read two more fields of
    an event document, [interestedUsers] and [interestedCount]; a
    document of the event collection is the inventory part [core] with
    these two fields beside it. *)

Record EventDoc := mkEventDoc {
  core : Event.t;
  interestedUsers : list string;
  interestedCount : Z
}.

(** [Event.findOne({ id })] on the documents. *)
Definition findDoc (eid : Z) (es : list EventDoc) : option (nat * EventDoc) :=
  list_find (λ d, Event.id (core d) = Some eid) es.

(** [event.save()]: the validators of the required paths, then the
    write at the position of the document. *)
Definition saveDoc (fl : Faults) (i : nat) (d : EventDoc) (es : list EventDoc)
  : option (list EventDoc) :=
  if negb (Event.validate (core d)) then None
  else if eventSaveFails fl then None
  else Some (<[i := d]> es).

(** [event.interestedUsers.includes(req.user._id)]: the array of a
    Mongoose document compares ObjectIds by their string value. *)
Definition includes (uid : string) (users : list string) : bool :=
  existsb (String.eqb uid) users.

Inductive FavResponse :=
  | FavoriteAdded (count : Z)      (* 200, 'Event added to favorites' *)
  | FavoriteRemoved (count : Z)    (* 200, 'Event removed from favorites' *)
  | FavInvalidEventId              (* 400, 'Invalid event ID' *)
  | FavEventNotFound               (* 404, 'Event not found' *)
  | AlreadyInFavorites             (* 400, 'Event already in favorites' *)
  | NotInFavorites                 (* 400, 'Event not in favorites' *)
  | FavError.                      (* 500 *)

(** [router.post('/:id/favorite')]. *)
Definition addFavorite (fl : Faults) (u : User) (param : option Z) (es : list EventDoc)
  : FavResponse * list EventDoc :=
  match param with
  | None => (FavInvalidEventId, es)
  | Some eventId =>
      match findDoc eventId es with
      | None => (FavEventNotFound, es)
      | Some (i, event) =>
          if includes (_id u) (interestedUsers event) then (AlreadyInFavorites, es)
          else
            let event1 :=
              mkEventDoc (core event) (interestedUsers event ++ [_id u])
                (interestedCount event + 1) in
            match saveDoc fl i event1 es with
            | None => (FavError, es)
            | Some es1 => (FavoriteAdded (interestedCount event1), es1)
            end
      end
  end.

(** [router.delete('/:id/favorite')]. *)
Definition removeFavorite (fl : Faults) (u : User) (param : option Z) (es : list EventDoc)
  : FavResponse * list EventDoc :=
  match param with
  | None => (FavInvalidEventId, es)
  | Some eventId =>
      match findDoc eventId es with
      | None => (FavEventNotFound, es)
      | Some (i, event) =>
          if negb (includes (_id u) (interestedUsers event)) then (NotInFavorites, es)
          else
            let event1 :=
              mkEventDoc (core event)
                (List.filter (λ userId, negb (String.eqb userId (_id u)))
                   (interestedUsers event))
                (interestedCount event - 1) in
            match saveDoc fl i event1 es with
            | None => (FavError, es)
            | Some es1 => (FavoriteRemoved (interestedCount event1), es1)
            end
      end
  end.

(** ** The fields added for display (routes/event.routes.js) *)

(** What [addIsFavoriteField] returns for one event: the plain object
    of the document with [isFavorite]; [fv_interestedUsers] is [None]
    when the key was taken out of the object. *)
Record FavoriteView := mkFavoriteView {
  fv_core : Event.t;
  fv_interestedCount : Z;
  fv_interestedUsers : option (list string);
  isFavorite : bool
}.

(** [addIsFavoriteField(events, userId)]; [userId] is [req.user?._id],
    [None] for a request without user. *)
Definition addIsFavoriteField (events : list EventDoc) (userId : option string)
  : list FavoriteView :=
  match userId with
  | None =>
      (λ event, mkFavoriteView (core event) (interestedCount event)
                  (Some (interestedUsers event)) false) <$> events
  | Some userIdStr =>
      (λ event, mkFavoriteView (core event) (interestedCount event) None
                  (existsb (λ id, String.eqb id userIdStr) (interestedUsers event)))
        <$> events
  end.

#[global] Instance Status_eq_dec : EqDecision Status.
Proof. solve_decision. Defined.

Record EventView := mkEventView { fav : FavoriteView; isBooked : bool }.

(** [Booking.find({ user: userId, status: 'active' })], then the set of
    the [event] fields of the result. *)
Definition bookedEventIds (userId : string) (bs : list Booking.t) : gset Z :=
  list_to_set
    (Booking.event <$>
       filter (λ b, Booking.user b = userId ∧ Booking.status b = active) bs).

(** [addIsBookedField(events, userId)], reading the bookings [bs]. *)
Definition addIsBookedField (events : list FavoriteView) (userId : option string)
    (bs : list Booking.t) : list EventView :=
  match userId with
  | None => (λ event, mkEventView event false) <$> events
  | Some uid =>
      let ids := bookedEventIds uid bs in
      (λ event,
         mkEventView event
           match Event.id (fv_core event) with
           | Some n => bool_decide (n ∈ ids)
           | None => false
           end) <$> events
  end.

(** [router.get('/favorites')]: the documents whose [interestedUsers]
    hold the user, with the two display fields. *)
Definition getFavorites (u : User) (es : list EventDoc) (bs : list Booking.t)
  : list EventView :=
  let events := filter (λ d, _id u ∈ interestedUsers d) es in
  addIsBookedField (addIsFavoriteField events (Some (_id u))) (Some (_id u)) bs.

Inductive GetEventResponse :=
  | EventJson (v : option EventView)   (* 200; [None] is [undefined] *)
  | GetInvalidEventId                  (* 400, 'Invalid event ID' *)
  | GetEventNotFound.                  (* 404, 'Event not found' *)

(** [router.get('/:id')]; authentication is optional, [user] is
    [req.user]. *)
Definition getEvent (user : option User) (param : option Z) (es : list EventDoc)
    (bs : list Booking.t) : GetEventResponse :=
  match param with
  | None => GetInvalidEventId
  | Some eventId =>
      match findDoc eventId es with
      | None => GetEventNotFound
      | Some (_, event) =>
          let eventWithFavorite := head (addIsFavoriteField [event] (_id <$> user)) in
          EventJson
            (eventWithFavorite ≫= λ e, head (addIsBookedField [e] (_id <$> user) bs))
      end
  end.

(** ** Paging (GET /my-bookings, GET /events)

    [parseInt(req.query.page) || 1] and [parseInt(req.query.limit) ||
    10]: the argument is the result of [parseInt], [None] for [NaN]. *)
Definition orDefault (d : Z) (parsed : option Z) : Z :=
  match parsed with
  | None => d
  | Some n => if n =? 0 then d else n
  end.

Definition pageOf (parsed : option Z) : Z := orDefault 1 parsed.
Definition limitOf (parsed : option Z) : Z := orDefault 10 parsed.

(** [skip = (page - 1) * limit]. *)
Definition skipOf (page limit : Z) : Z := (page - 1) * limit.

(** [Math.ceil(total / limit)]. *)
Definition totalPages (total limit : Z) : Z := - ((- total) / limit).

(** [.skip(skip).limit(limit)] on the documents [docs] that the query
    finds, in its sort order. [None]: the query is sent with a negative
    skip or limit, and what the driver answers to that is outside the
    model. *)
Definition pageSlice {A} (docs : list A) (page limit : Z) : option (list A) :=
  if (skipOf page limit <? 0) || (limit <? 0) then None
  else Some (take (Z.to_nat limit) (drop (Z.to_nat (skipOf page limit)) docs)).

(** ** Predicates on stores *)

(** Every stored document passes the validators of its schema. *)
Definition storeValid (db : Db) : Prop :=
  Forall (λ e, Event.validate e = true) (events db) ∧
  Forall (λ b, Booking.validate b = true) (bookings db).

(** A request leaves the events alone, writes one validated document
    in place, removes one, or appends a validated one. *)
Inductive EventsChange (es : list Event.t) : list Event.t → Prop :=
  | EventsSame : EventsChange es es
  | EventWritten i e1 : Event.validate e1 = true → EventsChange es (<[i := e1]> es)
  | EventRemoved i : EventsChange es (delete i es)
  | EventAdded e1 : Event.validate e1 = true → EventsChange es (es ++ [e1]).

(** The booking ids are pairwise distinct and none is ahead of the
    counter. *)
Definition idsInOrder (db : Db) : Prop :=
  idsBelowCounter db ∧ NoDup (Booking.id <$> bookings db).

(** [interestedCount] counts the users of [interestedUsers], each
    listed once. *)
Definition favConsistent (d : EventDoc) : Prop :=
  NoDup (interestedUsers d) ∧ interestedCount d = Z.of_nat (length (interestedUsers d)).

(** The pages 1 to [n] of [docs], as the paged routes return them. *)
Definition pagesUpTo {A} (docs : list A) (limit : Z) (n : nat) : list (list A) :=
  (λ k, default [] (pageSlice docs (Z.of_nat (S k)) limit)) <$> seq 0 n.



(** ** Sample data *)

Definition alice : User := mkUser "alice" RoleUser.
Definition bob : User := mkUser "bob" RoleUser.
Definition root : User := mkUser "root" RoleAdmin.

(** One event, id 1, price 25, with [avail] of its [total] tickets left. *)
Definition concert (total avail : Z) : Event.t :=
  Event.mk (Some 1) (25 # 1) total avail.

Definition venue (total avail : Z) : Db := mkDb [concert total avail] [] ∅.

Definition book (q : Z) : CreateBody := mkCreateBody (IdNum 1) (Some q).

Definition bookingWriteFails : Faults := mkFaults false false true.

Definition booked : Db := (createBooking noFaults alice (book 3) (venue 10 10)).2.

Definition afterCancel : Db := (cancelBooking noFaults alice (Some 1) booked).2.

(** ** Case analysis on the handlers *)

Ltac case_create :=
  unfold createBooking;
  destruct (validCreateBody _) as [[[| |?eid] ?q]|] eqn:?Hvalid; simpl;
  [ | | destruct (findEvent _ _) as [[?i ?e]|] eqn:?Hfind; simpl;
        [ destruct (Event.availableTickets _ <? _) eqn:?Hlow; simpl;
          [ | destruct (saveEvent _ _ _ _) as [?db1|] eqn:?Hsave; simpl;
              [ destruct (saveNewBooking _ _ _) as [[?b1|] ?db2] eqn:?Hins; simpl | ] ]
        | ]
  | ].

Ltac case_cancel :=
  unfold cancelBooking;
  destruct (findBooking _ _) as [[?j ?b]|] eqn:?Hfindb; simpl;
  [ destruct (String.eqb _ _) eqn:?Hown; simpl;
    [ destruct (Booking.status _) eqn:?Hstatus; simpl;
      [ destruct (findEvent _ _) as [[?i ?e]|] eqn:?Hfind; simpl;
        [ destruct (saveEvent _ _ _ _) as [?db1|] eqn:?Hsave; simpl;
          [ destruct (saveBooking _ _ _ _) as [?db2|] eqn:?Hsaveb; simpl | ]
        | ]
      | ]
    | ]
  | ].

(** * Properties *)

Lemma validCreateBody_Some body rid q :
  validCreateBody body = Some (rid, q) →
  eventId body = rid ∧ quantity body = Some q ∧ 1 ≤ q ∧ rid ≠ IdEmpty.
Proof.
  unfold validCreateBody.
  destruct (eventId body) eqn:Hid, (quantity body) as [q0|] eqn:Hq; try discriminate;
    destruct (Z.leb_spec 1 q0); intros [= <- <-]; repeat split; auto; discriminate.
Qed.

Lemma saveEvent_Some fl i e db db1 :
  saveEvent fl i e db = Some db1 →
  Event.validate e = true ∧ eventSaveFails fl = false ∧
  db1 = set_events (<[i := e]> (events db)) db.
Proof.
  unfold saveEvent.
  destruct (Event.validate e), (eventSaveFails fl); simpl; intros [= <-]; auto.
Qed.

Lemma saveBooking_Some fl j b db db1 :
  saveBooking fl j b db = Some db1 →
  Booking.validate b = true ∧ bookingSaveFails fl = false ∧
  db1 = set_bookings (<[j := b]> (bookings db)) db.
Proof.
  unfold saveBooking.
  destruct (Booking.validate b), (bookingSaveFails fl); simpl; intros [= <-]; auto.
Qed.

Lemma saveNewBooking_Some fl b db b1 db1 :
  saveNewBooking fl b db = (Some b1, db1) →
  let seq := default 0 (counters db !! "bookingId") + 1 in
  b1 = Booking.set_id seq b ∧
  idTaken seq (bookings db) = false ∧
  db1 = set_bookings (bookings db ++ [b1])
          (set_counters (<["bookingId" := seq]> (counters db)) db).
Proof.
  unfold saveNewBooking, nextSeq.
  destruct (Booking.validate b), (counterFails fl); simpl; try discriminate.
  destruct (bookingSaveFails fl); simpl; try discriminate.
  destruct (idTaken _ _) eqn:Ht; simpl; try discriminate.
  intros [= <- <-]. auto.
Qed.

Lemma saveNewBooking_None fl b db db1 :
  saveNewBooking fl b db = (None, db1) →
  events db1 = events db ∧ bookings db1 = bookings db.
Proof.
  unfold saveNewBooking, nextSeq.
  destruct (Booking.validate b), (counterFails fl); simpl;
    try (intros [= <-]; auto; fail).
  destruct (_ || _); simpl; intros [= <-]; auto.
Qed.

(** ** Rejected create requests *)

(** C5. A create request that is answered with the validation errors
    (which is the answer to every quantity below 1), with 'Event not
    found' or with 'Not enough tickets available' leaves the whole store
    as it was: the events and their available tickets, the bookings and
    the counters. *)
Theorem createBooking_rejection_no_effect fl u body db :
  ((∃ q, quantity body = Some q ∧ q < 1) →
     createBooking fl u body db = (ValidationErrors, db)) ∧
  (∀ r db', createBooking fl u body db = (r, db') →
     r = ValidationErrors ∨ r = EventNotFound ∨ r = NotEnoughTickets →
     db' = db).
Proof.
  split.
  - intros (q & Hq & Hlt). unfold createBooking, validCreateBody. rewrite Hq.
    destruct (Z.leb_spec 1 q); [lia|]. by destruct (eventId body).
  - intros r db'. case_create; intros [= <- <-]; auto;
      intros [?|[?|?]]; discriminate.
Qed.

Lemma createBooking_rejection_no_effect_witness :
  createBooking noFaults alice (book 0) (venue 10 10) = (ValidationErrors, venue 10 10)
  ∧ (createBooking noFaults alice (book 11) (venue 10 10)).2 = venue 10 10.
Proof.
  split.
  - apply (createBooking_rejection_no_effect noFaults alice (book 0) (venue 10 10)).
    exists 0. split; [reflexivity | lia].
  - apply (proj2 (createBooking_rejection_no_effect noFaults alice (book 11) (venue 10 10))
             NotEnoughTickets); [reflexivity | auto].
Defined.

(** ** Lists of documents *)

Section find_insert.
Context {A : Type} (P : A → Prop) `{!∀ x, Decision (P x)}.

(** Rewriting a document that keeps its key does not move what
    [findOne] returns for another position. *)
Lemma list_find_insert_other (l : list A) k j x y b :
  l !! k = Some x → (P x ↔ P y) → k ≠ j →
  list_find P l = Some (j, b) →
  list_find P (<[k := y]> l) = Some (j, b).
Proof.
  intros Hk Hxy Hne (Hj & Hb & Hleast)%list_find_Some.
  apply list_find_Some. rewrite list_lookup_insert_ne by done.
  split_and!; [done..|].
  intros j' z Hz Hlt Hz'.
  destruct (decide (k = j')) as [->|Hkj].
  - rewrite list_lookup_insert_eq in Hz by eauto using lookup_lt_Some.
    injection Hz as <-. apply (Hleast j' x); tauto.
  - rewrite list_lookup_insert_ne in Hz by done. by apply (Hleast j' z).
Qed.

Lemma list_find_insert_same (l : list A) j y b :
  P y → list_find P l = Some (j, b) →
  list_find P (<[j := y]> l) = Some (j, y).
Proof.
  intros Hy (Hj & Hb & Hleast)%list_find_Some.
  apply list_find_Some.
  rewrite list_lookup_insert_eq by eauto using lookup_lt_Some.
  split_and!; [done..|].
  intros j' z Hz Hlt. rewrite list_lookup_insert_ne in Hz by lia. eauto.
Qed.

Lemma list_find_insert_None (l : list A) k x y :
  l !! k = Some x → (P x ↔ P y) →
  list_find P l = None → list_find P (<[k := y]> l) = None.
Proof.
  intros Hk Hxy Hnone. apply list_find_None, Forall_lookup.
  rewrite list_find_None, Forall_lookup in Hnone.
  intros j' z Hz.
  destruct (decide (k = j')) as [->|Hkj].
  - rewrite list_lookup_insert_eq in Hz by eauto using lookup_lt_Some.
    injection Hz as <-. rewrite <- Hxy. eauto.
  - rewrite list_lookup_insert_ne in Hz by done. eauto.
Qed.
End find_insert.

(** ** Who may cancel *)

(** C7 fails for administrators: an administrator who does not own the
    booking is answered 403 like any other user. *)
Lemma cancel_refuses_administrator :
  isAdmin root = true ∧
  (∃ j b, findBooking 1 booked = Some (j, b) ∧ Booking.status b = active) ∧
  cancelBooking noFaults root (Some 1) booked = (NotAuthorized, booked).
Proof.
  split; [reflexivity|]. split; [|reflexivity].
  eexists _, _. split; reflexivity.
Qed.

(** C7, as the code has it. A cancel request on an existing booking is
    answered 403 'Not authorized to cancel this booking' exactly when
    the requester is not the owner of the booking; the role of the
    requester plays no part, so an administrator can cancel only the
    bookings they own. *)
Theorem cancel_forbidden_iff_not_owner fl u bid db j b :
  findBooking bid db = Some (j, b) →
  (cancelBooking fl u (Some bid) db).1 = NotAuthorized ↔ Booking.user b ≠ _id u.
Proof.
  intros Hb. unfold cancelBooking. rewrite Hb.
  destruct (String.eqb_spec (Booking.user b) (_id u)) as [Heq|Hne]; simpl.
  - split; [|done]. intros Hr. exfalso. revert Hr.
    destruct (Booking.status b); [|done].
    destruct (findEvent _ _) as [[i e]|]; [|done].
    destruct (saveEvent _ _ _ _); [|done].
    by destruct (saveBooking _ _ _ _).
  - done.
Qed.

Lemma cancel_forbidden_iff_not_owner_witness :
  (cancelBooking noFaults bob (Some 1) booked).1 = NotAuthorized ↔ "alice" ≠ "bob".
Proof.
  apply (cancel_forbidden_iff_not_owner noFaults bob 1 booked 0%nat
           (Booking.mk (Some 1) "alice" 1 3 (75 # 1) active)).
  reflexivity.
Defined.

(** ** What a request does to the bookings *)

Lemma createBooking_bookings fl u body db :
  BookingsChange (bookings db) (bookings (createBooking fl u body db).2).
Proof.
  case_create; try constructor.
  - apply saveEvent_Some in Hsave as (_ & _ & ->).
    apply saveNewBooking_Some in Hins as (_ & _ & ->). simpl. constructor.
  - apply saveEvent_Some in Hsave as (_ & _ & ->).
    apply saveNewBooking_None in Hins as (_ & ->). simpl. constructor.
Qed.

Lemma cancelBooking_bookings fl u param db :
  BookingsChange (bookings db) (bookings (cancelBooking fl u param db).2).
Proof.
  destruct param as [bid|]; [|constructor].
  case_cancel; try constructor.
  - apply saveEvent_Some in Hsave as (_ & _ & ->).
    apply saveBooking_Some in Hsaveb as (_ & _ & ->). simpl.
    apply list_find_Some in Hfindb as (Hj & _). by constructor.
  - apply saveEvent_Some in Hsave as (_ & _ & ->). simpl. constructor.
Qed.

Lemma updateEvent_bookings fl u param body db :
  bookings (updateEvent fl u param body db).2 = bookings db.
Proof.
  unfold updateEvent. destruct (isAdmin u); [|done]. simpl.
  destruct param as [eid|]; [|done].
  destruct (findEvent eid db) as [[i e]|]; [|done].
  match goal with |- context [if ?c then _ else _] => destruct c end; [done|].
  destruct (saveEvent _ _ _ _) as [db1|] eqn:Hsave; [|done].
  by apply saveEvent_Some in Hsave as (_ & _ & ->).
Qed.

Lemma deleteEvent_bookings u param db :
  bookings (deleteEvent u param db).2 = bookings db.
Proof.
  unfold deleteEvent. destruct (isAdmin u); [|done]. simpl.
  destruct param as [eid|]; [|done].
  by destruct (findEvent eid db) as [[i e]|].
Qed.

Lemma createEvent_bookings fl u p total db :
  bookings (createEvent fl u p total db).2 = bookings db.
Proof.
  unfold createEvent. destruct (isAdmin u); [|done]. simpl.
  destruct total as [n|]; [|done]. destruct (n <? 1); [done|].
  unfold saveNewEvent, nextSeq.
  destruct (Event.validate _); [|done]. simpl.
  destruct (counterFails fl); [done|].
  by destruct (_ || _).
Qed.

Lemma step_bookings fl op db :
  BookingsChange (bookings db) (bookings (step fl op db).2).
Proof.
  destruct op; simpl.
  - apply createBooking_bookings.
  - apply cancelBooking_bookings.
  - rewrite updateEvent_bookings. constructor.
  - rewrite deleteEvent_bookings. constructor.
  - rewrite createEvent_bookings. constructor.
Qed.

Lemma run_cons fl op rest db :
  run ((fl, op) :: rest) db =
    ((step fl op db).1 :: (run rest (step fl op db).2).1,
     (run rest (step fl op db).2).2).
Proof.
  simpl. destruct (step fl op db) as [r db1]. simpl.
  by destruct (run rest db1) as [rs db2].
Qed.

Lemma BookingsChange_find_cancelled bs bs' bid j b :
  BookingsChange bs bs' →
  list_find (λ b, Booking.id b = Some bid) bs = Some (j, b) →
  Booking.status b = cancelled →
  list_find (λ b, Booking.id b = Some bid) bs' = Some (j, b).
Proof.
  intros Hch Hfind Hst. destruct Hch as [|b1|j' b' Hj' Hact]; [done|..].
  - by apply list_find_app_l.
  - apply (list_find_insert_other _ _ j' j b'); [done|done| |done].
    intros ->. apply list_find_Some in Hfind as (Hj & _). congruence.
Qed.

Lemma BookingsChange_core bs bs' k b :
  BookingsChange bs bs' → bs !! k = Some b →
  ∃ b', bs' !! k = Some b' ∧ sameCore b b'.
Proof.
  intros Hch Hk. destruct Hch as [|b1|j' b' Hj' Hact].
  - exists b. by repeat split.
  - exists b. split; [by apply lookup_app_l_Some | by repeat split].
  - destruct (decide (j' = k)) as [->|Hne].
    + exists (Booking.set_status cancelled b').
      rewrite list_lookup_insert_eq by eauto using lookup_lt_Some.
      assert (b' = b) as -> by congruence. by repeat split.
    + exists b. rewrite list_lookup_insert_ne by done. by repeat split.
Qed.

(** ** Cancelling twice *)

(** C6 fails for requesters other than the owner: on a cancelled
    booking, the cancel request of a user who does not own it is
    answered 403, not 'Booking is already cancelled'. *)
Lemma recancel_by_stranger_is_forbidden :
  (∃ j b, findBooking 1 afterCancel = Some (j, b) ∧ Booking.status b = cancelled) ∧
  (cancelBooking noFaults bob (Some 1) afterCancel).1 = NotAuthorized ∧
  (cancelBooking noFaults bob (Some 1) afterCancel).1 ≠ AlreadyCancelled.
Proof.
  split; [eexists _, _; split; reflexivity|].
  split; [reflexivity | discriminate].
Qed.

(** C6, as the code has it. Once a booking is cancelled, every later
    cancel request on it leaves the store unchanged, whoever sends it
    and whatever requests came in between; the owner is answered 400
    'Booking is already cancelled' and every other requester 403. No
    request takes the booking out of the cancelled state. *)
Theorem cancelled_is_final bid db j b :
  findBooking bid db = Some (j, b) →
  Booking.status b = cancelled →
  ∀ ops fl u,
    let db' := (run ops db).2 in
    findBooking bid db' = Some (j, b) ∧
    cancelBooking fl u (Some bid) db' =
      (if String.eqb (Booking.user b) (_id u) then AlreadyCancelled else NotAuthorized,
       db').
Proof.
  intros Hfind Hst ops. revert db Hfind.
  induction ops as [|[fl0 op] rest IH]; intros db Hfind fl u.
  - simpl. split; [done|].
    unfold cancelBooking. rewrite Hfind, Hst.
    by destruct (String.eqb _ _).
  - rewrite run_cons. simpl. apply IH.
    unfold findBooking in *.
    eapply BookingsChange_find_cancelled; eauto using step_bookings.
Qed.

Lemma cancelled_is_final_witness :
  findBooking 1 (run [(noFaults, OpCreate bob (book 2))] afterCancel).2
    = Some (0%nat, Booking.mk (Some 1) "alice" 1 3 (75 # 1) cancelled)
  ∧ cancelBooking noFaults alice (Some 1)
      (run [(noFaults, OpCreate bob (book 2))] afterCancel).2
    = (AlreadyCancelled, (run [(noFaults, OpCreate bob (book 2))] afterCancel).2).
Proof.
  apply (cancelled_is_final 1 afterCancel 0%nat
           (Booking.mk (Some 1) "alice" 1 3 (75 # 1) cancelled));
    reflexivity.
Defined.

(** ** Events with distinct ids *)

Lemma distinct_ids_lookup (es : list Event.t) i k e e' :
  NoDup (Event.id <$> es) →
  es !! i = Some e → es !! k = Some e' → Event.id e = Event.id e' → i = k.
Proof.
  intros Hnd Hi Hk Heq.
  apply (NoDup_lookup _ i k (Event.id e) Hnd); rewrite list_lookup_fmap.
  - by rewrite Hi.
  - by rewrite Hk, Heq.
Qed.

Lemma delete_found_event (es : list Event.t) eid i e :
  NoDup (Event.id <$> es) →
  list_find (λ e, Event.id e = Some eid) es = Some (i, e) →
  list_find (λ e, Event.id e = Some eid) (delete i es) = None.
Proof.
  intros Hnd (Hi & He & Hleast)%list_find_Some.
  apply list_find_None, Forall_lookup. intros k z Hk Hz.
  destruct (decide (k < i)%nat) as [Hlt|Hge].
  - rewrite list_lookup_delete_lt in Hk by done. by apply (Hleast k z).
  - rewrite list_lookup_delete_ge in Hk by lia.
    assert (i = S k) by (eapply distinct_ids_lookup; eauto; congruence). lia.
Qed.

(** ** Cancelling after the event is gone *)

(** C10. Let an active booking refer to an event that an administrator
    then deletes. The booking is still stored and active, and from then
    on every cancel request on it leaves the store as it is (no ticket
    is released, the booking stays active) and is never answered with
    success; the request of the owner is answered with the generic 500
    'Error cancelling booking', not with a 404. *)
Theorem cancel_after_event_deleted adm bid db j b db1 :
  NoDup (Event.id <$> events db) →
  findBooking bid db = Some (j, b) →
  Booking.status b = active →
  deleteEvent adm (Some (Booking.event b)) db = (EventDeleted, db1) →
  findBooking bid db1 = Some (j, b) ∧
  findEvent (Booking.event b) db1 = None ∧
  ∀ fl u,
    (cancelBooking fl u (Some bid) db1).2 = db1 ∧
    statusCode (cancelBooking fl u (Some bid) db1).1 ≠ 200 ∧
    (Booking.user b = _id u →
       cancelBooking fl u (Some bid) db1 = (ErrorCancellingBooking, db1) ∧
       statusCode ErrorCancellingBooking = 500).
Proof.
  intros Hnd Hfindb Hact Hdel.
  unfold deleteEvent in Hdel.
  destruct (isAdmin adm); [|discriminate]. simpl in Hdel.
  destruct (findEvent (Booking.event b) db) as [[i e]|] eqn:Hfind; [|discriminate].
  injection Hdel as <-.
  assert (findEvent (Booking.event b) (set_events (delete i (events db)) db) = None)
    as Hgone by (unfold findEvent in *; simpl; by apply (delete_found_event _ _ _ e)).
  split; [done|]. split; [done|].
  intros fl u. unfold cancelBooking.
  replace (findBooking bid (set_events (delete i (events db)) db))
    with (Some (j, b)) by done.
  rewrite Hact, Hgone.
  destruct (String.eqb_spec (Booking.user b) (_id u)); simpl;
    repeat split; done.
Qed.

Lemma cancel_after_event_deleted_witness :
  findBooking 1 (deleteEvent root (Some 1) booked).2
    = Some (0%nat, Booking.mk (Some 1) "alice" 1 3 (75 # 1) active)
  ∧ cancelBooking noFaults alice (Some 1) (deleteEvent root (Some 1) booked).2
    = (ErrorCancellingBooking, (deleteEvent root (Some 1) booked).2).
Proof.
  destruct (cancel_after_event_deleted root 1 booked 0%nat
              (Booking.mk (Some 1) "alice" 1 3 (75 # 1) active)
              (deleteEvent root (Some 1) booked).2) as (Hb & _ & Hc).
  - vm_compute. repeat constructor. set_solver.
  - reflexivity.
  - reflexivity.
  - reflexivity.
  - split; [exact Hb|]. apply (Hc noFaults alice). reflexivity.
Defined.

(** ** A booking that cannot be stored *)

(** C3 fails, there is no rollback: the insert of the booking throws
    after the event was saved with 3 tickets less; the request is answered 500,
    no booking is stored, and the event keeps 7 of its 10 tickets. *)
Lemma failed_insert_keeps_decrement :
  ∃ db',
    createBooking bookingWriteFails alice (book 3) (venue 10 10) = (ErrorCreatingBooking, db') ∧
    bookings db' = [] ∧
    events (venue 10 10) = [concert 10 10] ∧
    events db' = [concert 10 7].
Proof. eexists. repeat split; reflexivity. Qed.

(** C3, as the code has it. When [event.save()] has applied the
    decrement and [booking.save()] then throws (the counter update or
    the insert fails, or the unique index refuses the id), the request
    is answered 500 'Error creating booking' and nothing is rolled
    back: the stored event keeps [availableTickets - quantity] and no
    booking record is added. *)
Theorem createBooking_no_compensation fl u eid q db i e :
  findEvent eid db = Some (i, e) →
  1 ≤ q ≤ Event.availableTickets e →
  Event.validate e = true →
  eventSaveFails fl = false →
  counterFails fl = true ∨ bookingSaveFails fl = true ∨
    idTaken (default 0 (counters db !! "bookingId") + 1) (bookings db) = true →
  let e1 := Event.set_availableTickets (Event.availableTickets e - q) e in
  let '(r, db') := createBooking fl u (mkCreateBody (IdNum eid) (Some q)) db in
  r = ErrorCreatingBooking ∧
  bookings db' = bookings db ∧
  events db' = <[i := e1]> (events db) ∧
  findEvent eid db' = Some (i, e1).
Proof.
  intros Hfind [Hq1 Hq2] Hval Hfl Hfail e1.
  assert (Event.validate e1 = true) as Hval1.
  { unfold Event.validate in *. subst e1. simpl.
    apply andb_true_iff in Hval as [Hval _]. rewrite Hval. simpl. lia. }
  unfold createBooking, validCreateBody. simpl.
  destruct (Z.leb_spec 1 q); [|lia].
  rewrite Hfind.
  destruct (Z.ltb_spec (Event.availableTickets e) q); [lia|].
  fold e1. unfold saveEvent. rewrite Hval1, Hfl. simpl.
  assert (findEvent eid (set_events (<[i:=e1]> (events db)) db) = Some (i, e1)) as Hf1.
  { unfold findEvent in *. simpl.
    apply (list_find_insert_same _ _ _ _ e); [|done].
    apply list_find_Some in Hfind as (_ & He & _). done. }
  destruct (saveNewBooking _ _ _) as [[b1|] db2] eqn:Hins.
  - exfalso. unfold saveNewBooking, nextSeq in Hins. simpl in Hins.
    destruct (Booking.validate _); [|discriminate]. simpl in Hins.
    destruct Hfail as [Hc|[Hb|Ht]].
    + rewrite Hc in Hins. discriminate.
    + rewrite Hb in Hins. by destruct (counterFails fl).
    + rewrite Ht, orb_true_r in Hins. by destruct (counterFails fl).
  - apply saveNewBooking_None in Hins as (Hev & Hbk).
    split; [done|]. split; [done|]. split; [done|].
    unfold findEvent in *. by rewrite Hev.
Qed.

Lemma createBooking_no_compensation_witness :
  let '(r, db') := createBooking bookingWriteFails alice (book 3) (venue 10 10) in
  r = ErrorCreatingBooking ∧
  bookings db' = [] ∧
  events db' = [concert 10 7] ∧
  findEvent 1 db' = Some (0%nat, concert 10 7).
Proof.
  apply (createBooking_no_compensation bookingWriteFails alice 1 3 (venue 10 10) 0%nat
           (concert 10 10)).
  - reflexivity.
  - simpl. lia.
  - reflexivity.
  - reflexivity.
  - right. left. reflexivity.
Defined.

(** ** The sequence allocator *)

Lemma allocate_cons n rest c :
  allocate (n :: rest) c =
    ((n, (nextSeq n c).1) :: (allocate rest (nextSeq n c).2).1,
     (allocate rest (nextSeq n c).2).2).
Proof. simpl. by destruct (allocate rest _). Qed.

Lemma lastIssued_insert n m v (c : gmap string Z) :
  lastIssued (<[n := v]> c) m = if decide (n = m) then v else lastIssued c m.
Proof.
  unfold lastIssued. case_decide as Hnm.
  - subst. by rewrite lookup_insert_eq.
  - by rewrite lookup_insert_ne.
Qed.

(** Every value handed out is above the value stored before the run. *)
Lemma allocate_above names : ∀ c k n v,
  (allocate names c).1 !! k = Some (n, v) → lastIssued c n < v.
Proof.
  induction names as [|n0 rest IH]; intros c k n v; [done|].
  rewrite allocate_cons. unfold nextSeq. simpl. destruct k as [|k]; simpl.
  - intros [= -> <-]. unfold lastIssued. lia.
  - intros Hk. apply IH in Hk. rewrite lastIssued_insert in Hk.
    case_decide; subst; unfold lastIssued in *; lia.
Qed.

(** C8. In any run of allocator calls, over any namespaces and from any
    stored counters, a value returned for a namespace is strictly
    greater than every value returned earlier for the same namespace, so
    no two calls return the same value for it; and the first value
    returned for a namespace that has no counter record yet is 1. *)
Theorem allocator_strictly_increasing names c :
  let out := (allocate names c).1 in
  (∀ i j n v w, (i < j)%nat →
     out !! i = Some (n, v) → out !! j = Some (n, w) → v < w) ∧
  (∀ k n v, c !! n = None → out !! k = Some (n, v) →
     (∀ k' w, (k' < k)%nat → out !! k' ≠ Some (n, w)) → v = 1).
Proof.
  simpl. split.
  - revert c. induction names as [|n0 rest IH]; intros c i j n v w Hij; [done|].
    rewrite allocate_cons. simpl.
    destruct j as [|j]; [lia|]. destruct i as [|i]; simpl.
    + intros [= -> <-] Hj. apply allocate_above in Hj.
      unfold nextSeq in Hj. simpl in Hj.
      rewrite lastIssued_insert in Hj. by case_decide.
    + apply IH. lia.
  - revert c. induction names as [|n0 rest IH]; intros c k n v Hnone; [done|].
    rewrite allocate_cons. unfold nextSeq. simpl. destruct k as [|k]; simpl.
    + intros [= -> <-] _. by rewrite Hnone.
    + intros Hk Hfirst.
      assert (n0 ≠ n) as Hne.
      { intros ->. by apply (Hfirst 0%nat (default 0 (c !! n) + 1)); [lia|]. }
      apply (IH (<[n0 := default 0 (c !! n0) + 1]> c) k n v);
        [by rewrite lookup_insert_ne | done |].
      intros k' w Hlt. apply (Hfirst (S k') w). lia.
Qed.

Lemma allocator_strictly_increasing_witness :
  (allocate ["bookingId"; "eventId"; "bookingId"] ∅).1 !! 0%nat = Some ("bookingId", 1) ∧
  (allocate ["bookingId"; "eventId"; "bookingId"] ∅).1 !! 2%nat = Some ("bookingId", 2) ∧
  1 < 2.
Proof.
  split; [reflexivity|]. split; [reflexivity|].
  apply (proj1 (allocator_strictly_increasing ["bookingId"; "eventId"; "bookingId"] ∅)
           0%nat 2%nat "bookingId" 1 2); [lia | reflexivity | reflexivity].
Defined.

(** The pre-save hook of the booking model stores the allocator's value
    for the namespace [bookingId] as the id of the new booking. *)
Lemma created_booking_id fl u body db b db' :
  createBooking fl u body db = (Created b, db') →
  Booking.id b = Some (nextSeq "bookingId" (counters db)).1 ∧
  counters db' = (nextSeq "bookingId" (counters db)).2.
Proof.
  case_create; intros [= <- <-].
  apply saveEvent_Some in Hsave as (_ & _ & ->).
  apply saveNewBooking_Some in Hins as (-> & _ & ->). done.
Qed.

(** ** Frozen fields of a booking *)

(** C9. The booking stored by a successful create request carries
    [totalPrice = event.price * quantity] for the price the event has at
    that moment, together with the requested quantity, the event id and
    the requester as owner; and whatever requests follow (event updates
    that change the price, cancellations, further bookings, the deletion
    of the event), the record at that position keeps its totalPrice,
    quantity, event id, owner and id. *)
Theorem booking_price_frozen :
  (∀ fl u body db b db',
     createBooking fl u body db = (Created b, db') →
     ∃ eid q i e,
       eventId body = IdNum eid ∧ quantity body = Some q ∧
       findEvent eid db = Some (i, e) ∧
       Booking.totalPrice b = Qmult (Event.price e) (inject_Z q) ∧
       Booking.quantity b = q ∧ Booking.event b = eid ∧ Booking.user b = _id u ∧
       bookings db' = bookings db ++ [b]) ∧
  (∀ ops db k b,
     bookings db !! k = Some b →
     ∃ b', bookings (run ops db).2 !! k = Some b' ∧ sameCore b b').
Proof.
  split.
  - intros fl u body db b db'. case_create; intros [= <- <-].
    apply validCreateBody_Some in Hvalid as (Hid & Hq & _).
    apply saveEvent_Some in Hsave as (_ & _ & ->).
    apply saveNewBooking_Some in Hins as (-> & _ & ->).
    exists eid, q, i, e. by repeat split.
  - induction ops as [|[fl op] rest IH]; intros db k b Hk.
    + exists b. by repeat split.
    + rewrite run_cons. simpl.
      destruct (BookingsChange_core _ _ k b (step_bookings fl op db) Hk)
        as (b1 & Hk1 & Hcore1).
      destruct (IH _ _ _ Hk1) as (b2 & Hk2 & Hcore2).
      exists b2. split; [done|].
      destruct Hcore1 as (?&?&?&?&?), Hcore2 as (?&?&?&?&?).
      repeat split; congruence.
Qed.

Lemma booking_price_frozen_witness :
  ∃ b',
    bookings (run [(noFaults, OpUpdateEvent root (Some 1) (mkUpdateBody (Some (40 # 1)%Q) None None));
                   (noFaults, OpCancel alice (Some 1))] booked).2 !! 0%nat = Some b' ∧
    sameCore (Booking.mk (Some 1) "alice" 1 3 (75 # 1) active) b'.
Proof.
  apply (proj2 booking_price_frozen
           [(noFaults, OpUpdateEvent root (Some 1) (mkUpdateBody (Some (40 # 1)%Q) None None));
            (noFaults, OpCancel alice (Some 1))] booked 0%nat).
  reflexivity.
Defined.

(** ** The inventory equation *)

Lemma activeQuantity_app eid bs bs' :
  activeQuantity eid (bs ++ bs') = activeQuantity eid bs + activeQuantity eid bs'.
Proof. induction bs as [|b bs IH]; simpl; [done|]. rewrite IH. lia. Qed.

Lemma activeQuantity_insert eid bs j b b' :
  bs !! j = Some b →
  activeQuantity eid (<[j := b']> bs) =
    activeQuantity eid bs - contribution eid b + contribution eid b'.
Proof.
  revert j. induction bs as [|b0 bs IH]; intros [|j] Hj; simplify_eq/=.
  - unfold contribution. lia.
  - rewrite (IH j Hj). lia.
Qed.

Lemma activeQuantity_nonneg eid bs :
  (∀ b', b' ∈ bs → 0 ≤ Booking.quantity b') → 0 ≤ activeQuantity eid bs.
Proof.
  induction bs as [|b0 bs IH]; intros Hpos; simpl; [done|].
  assert (0 ≤ Booking.quantity b0) by (apply Hpos; left).
  assert (0 ≤ activeQuantity eid bs) by (apply IH; intros; apply Hpos; by right).
  destruct (countsFor eid b0); lia.
Qed.

Lemma activeQuantity_ge eid bs : ∀ j b,
  (∀ b', b' ∈ bs → 0 ≤ Booking.quantity b') →
  bs !! j = Some b → contribution eid b ≤ activeQuantity eid bs.
Proof.
  induction bs as [|b0 bs IH]; intros [|j] b Hpos Hj; simplify_eq/=.
  - assert (0 ≤ activeQuantity eid bs).
    { apply activeQuantity_nonneg. intros. apply Hpos. by right. }
    unfold contribution. lia.
  - assert (0 ≤ Booking.quantity b0) by (apply Hpos; left).
    assert (contribution eid b ≤ activeQuantity eid bs).
    { apply (IH j); [|done]. intros. apply Hpos. by right. }
    destruct (countsFor eid b0); lia.
Qed.

Lemma insert_keeps_ids (es : list Event.t) i e e1 :
  es !! i = Some e → Event.id e1 = Event.id e →
  Event.id <$> <[i := e1]> es = Event.id <$> es.
Proof.
  intros Hi Hid. rewrite list_fmap_insert, Hid.
  apply list_insert_id. by rewrite list_lookup_fmap, Hi.
Qed.

(** Moving [delta] tickets between event [eid] (found at position [i])
    and its active bookings keeps the store balanced. *)
Lemma rebalance db i e eid delta bs' :
  storeBalanced db →
  events db !! i = Some e → Event.id e = Some eid →
  activeQuantity eid bs' = activeQuantity eid (bookings db) + delta →
  (∀ eid', eid' ≠ eid →
     activeQuantity eid' bs' = activeQuantity eid' (bookings db)) →
  ∀ c,
  storeBalanced
    (mkDb (<[i := Event.set_availableTickets (Event.availableTickets e - delta) e]>
             (events db)) bs' c).
Proof.
  intros [Hnd Hbal] Hi Hid Hsum Hother c. split; simpl.
  - by rewrite (insert_keeps_ids _ _ e).
  - intros e' (k & Hk)%list_elem_of_lookup eid' Hid'. simpl.
    apply list_lookup_insert_Some in Hk as [(-> & <- & _)|(Hne & Hk)].
    + simpl in *. assert (eid' = eid) as -> by congruence.
      rewrite Hsum.
      pose proof (Hbal e (list_elem_of_lookup_2 _ _ _ Hi) eid Hid). lia.
    + assert (eid' ≠ eid) as Hneq.
      { intros ->. apply Hne. eapply distinct_ids_lookup; eauto. congruence. }
      rewrite (Hother _ Hneq).
      exact (Hbal e' (list_elem_of_lookup_2 _ _ _ Hk) eid' Hid').
Qed.

Lemma createBooking_balanced fl u body db :
  storeBalanced db →
  isServerError (createBooking fl u body db).1 = false →
  storeBalanced (createBooking fl u body db).2.
Proof.
  intros Hbal. case_create; try done.
  intros _.
  apply validCreateBody_Some in Hvalid as (_ & _ & Hq & _).
  apply saveEvent_Some in Hsave as (_ & _ & ->).
  apply saveNewBooking_Some in Hins as (-> & _ & ->). simpl.
  apply list_find_Some in Hfind as (Hi & Hid & _).
  apply (rebalance db i e eid q); try done.
  - rewrite activeQuantity_app. simpl. unfold countsFor. simpl.
    rewrite Z.eqb_refl. lia.
  - intros eid' Hne. rewrite activeQuantity_app. simpl. unfold countsFor. simpl.
    destruct (Z.eqb_spec eid eid'); [congruence|lia].
Qed.

Lemma cancelBooking_balanced fl u param db :
  storeBalanced db →
  isServerError (cancelBooking fl u param db).1 = false →
  storeBalanced (cancelBooking fl u param db).2.
Proof.
  intros Hbal. destruct param as [bid|]; [|done].
  case_cancel; try done.
  intros _.
  apply saveEvent_Some in Hsave as (_ & _ & ->).
  apply saveBooking_Some in Hsaveb as (_ & _ & ->). simpl.
  apply list_find_Some in Hfind as (Hi & Hid & _).
  apply list_find_Some in Hfindb as (Hj & _).
  replace (Event.availableTickets e + Booking.quantity b)
    with (Event.availableTickets e - (- Booking.quantity b)) by lia.
  apply (rebalance db i e (Booking.event b) (- Booking.quantity b)); try done.
  - rewrite (activeQuantity_insert _ _ _ b) by done.
    unfold contribution, countsFor, Booking.is_active. simpl.
    rewrite Hstatus, Z.eqb_refl. simpl. lia.
  - intros eid' Hne. rewrite (activeQuantity_insert _ _ _ b) by done.
    unfold contribution, countsFor. simpl.
    destruct (Z.eqb_spec (Booking.event b) eid'); [congruence|].
    rewrite !andb_false_r. lia.
Qed.

Lemma fresh_balanced db : fresh db → storeBalanced db.
Proof.
  intros (Hbs & Hnd & Hfull). split; [done|].
  intros e He eid _. rewrite Hbs. simpl. rewrite (Hfull e He). lia.
Qed.

Lemma run_balanced ops : ∀ db,
  storeBalanced db →
  Forall (λ o, isBookingOp o.2 = true) ops →
  Forall (λ r, isServerError r = false) (run ops db).1 →
  storeBalanced (run ops db).2.
Proof.
  induction ops as [|[fl op] rest IH]; intros db Hbal Hops; [done|].
  rewrite run_cons. simpl.
  apply Forall_cons in Hops as [Hop Hrest].
  intros [Hr Hrs]%Forall_cons.
  apply IH; [|done..].
  destruct op; try discriminate; simpl in *.
  - by apply createBooking_balanced.
  - by apply cancelBooking_balanced.
Qed.

(** C1 fails when requests overlap: two create requests for one ticket
    each are in flight together on an event with a single ticket. Both read
    [availableTickets = 1] before either saves, both complete with 201,
    and the store ends with no ticket available and two active
    bookings: 0 + 2 is not the total of 1. *)
Lemma interleaved_creates_break_equation :
  let '(ts, db) :=
    Interleaved.interleave [0; 1; 0; 1; 0; 1; 0; 1]%nat
      ([Interleaved.Start noFaults alice (book 1);
        Interleaved.Start noFaults bob (book 1)], venue 1 1) in
  fresh (venue 1 1) ∧
  statusCode <$> Interleaved.responses ts = [201; 201] ∧
  events db = [concert 1 0] ∧
  activeQuantity 1 (bookings db) = 2 ∧
  ¬ balanced db (concert 1 0).
Proof.
  vm_compute Interleaved.interleave. split.
  - split; [done|]. split.
    + simpl. apply NoDup_singleton.
    + intros e ->%list_elem_of_singleton. done.
  - split; [done|]. split; [done|]. split; [done|].
    intros Hbal. specialize (Hbal 1 eq_refl). done.
Qed.

(** C1, as the code has it. Start from a store without bookings in which
    every event has all of its tickets available, and let create and
    cancel requests run one at a time, each to completion before the
    next starts and none of them answered with a 500 error. Then for
    every event [availableTickets + Σ quantity of its active bookings =
    totalTickets]. *)
Theorem inventory_equation_sequential db0 ops :
  fresh db0 →
  Forall (λ o, isBookingOp o.2 = true) ops →
  Forall (λ r, isServerError r = false) (run ops db0).1 →
  ∀ e eid, e ∈ events (run ops db0).2 → Event.id e = Some eid →
    Event.availableTickets e + activeQuantity eid (bookings (run ops db0).2)
      = Event.totalTickets e.
Proof.
  intros Hfresh Hops Hrs e eid He Hid.
  destruct (run_balanced ops db0 (fresh_balanced _ Hfresh) Hops Hrs) as [_ Hbal].
  by apply (Hbal e He eid).
Qed.

Lemma inventory_equation_sequential_witness :
  Event.availableTickets (concert 10 8)
    + activeQuantity 1
        (bookings (run [(noFaults, OpCreate alice (book 3));
                        (noFaults, OpCreate bob (book 2));
                        (noFaults, OpCancel alice (Some 1));
                        (noFaults, OpCancel alice (Some 1))] (venue 10 10)).2)
  = Event.totalTickets (concert 10 8).
Proof.
  apply (inventory_equation_sequential (venue 10 10)
           [(noFaults, OpCreate alice (book 3));
            (noFaults, OpCreate bob (book 2));
            (noFaults, OpCancel alice (Some 1));
            (noFaults, OpCancel alice (Some 1))]).
  - split; [reflexivity|]. split.
    + simpl. apply NoDup_singleton.
    + intros e ->%list_elem_of_singleton. reflexivity.
  - repeat constructor.
  - vm_compute. repeat constructor.
  - vm_compute. left.
  - reflexivity.
Defined.

(** ** Releasing tickets *)

(** C4 fails, nothing caps the release: the status write of a cancel
    request throws after the event was saved, so the booking stays
    active with its 3 tickets already released; the cancel request is
    sent again and releases them a second time, leaving 13 available
    tickets on an event of 10. *)
Lemma duplicate_release_exceeds_total :
  let '(rs, db) :=
    run [(noFaults, OpCreate alice (book 3));
         (bookingWriteFails, OpCancel alice (Some 1));
         (noFaults, OpCancel alice (Some 1))] (venue 10 10) in
  statusCode <$> rs = [201; 500; 200] ∧
  events db = [concert 10 13] ∧
  Event.totalTickets (concert 10 13) < Event.availableTickets (concert 10 13).
Proof. vm_compute run. repeat split. Qed.

(** C4, as the code has it. The release done by a cancel request whose
    [event.save()] goes through adds exactly the quantity of the booking
    to [availableTickets]; nothing caps the sum. The result stays
    within [totalTickets] when the inventory equation held for the event
    before the request and no stored booking has a negative quantity. *)
Theorem release_adds_quantity fl u bid db j b i e :
  findBooking bid db = Some (j, b) →
  Booking.user b = _id u →
  Booking.status b = active →
  findEvent (Booking.event b) db = Some (i, e) →
  let e1 :=
    Event.set_availableTickets (Event.availableTickets e + Booking.quantity b) e in
  Event.validate e1 = true →
  eventSaveFails fl = false →
  findEvent (Booking.event b) (cancelBooking fl u (Some bid) db).2 = Some (i, e1) ∧
  (balanced db e →
   (∀ b', b' ∈ bookings db → 0 ≤ Booking.quantity b') →
   Event.availableTickets e1 ≤ Event.totalTickets e1).
Proof.
  intros Hfindb Hown Hact Hfind e1 Hval Hfl. split.
  - assert (findEvent (Booking.event b) (set_events (<[i:=e1]> (events db)) db)
            = Some (i, e1)) as Hf1.
    { unfold findEvent in *. simpl.
      apply (list_find_insert_same _ _ _ _ e); [|done].
      by apply list_find_Some in Hfind as (_ & He & _). }
    unfold cancelBooking. rewrite Hfindb, Hown, String.eqb_refl, Hact, Hfind. simpl.
    fold e1. unfold saveEvent. rewrite Hval, Hfl. simpl.
    destruct (saveBooking _ _ _ _) as [db2|] eqn:Hsaveb; simpl; [|done].
    by apply saveBooking_Some in Hsaveb as (_ & _ & ->).
  - intros Hbal Hpos. simpl.
    apply list_find_Some in Hfind as (_ & Hid & _).
    apply list_find_Some in Hfindb as (Hj & _).
    pose proof (Hbal _ Hid) as Heq.
    pose proof (activeQuantity_ge (Booking.event b) _ _ _ Hpos Hj) as Hge.
    unfold contribution, countsFor, Booking.is_active in Hge.
    rewrite Hact, Z.eqb_refl in Hge. simpl in Hge. lia.
Qed.

Lemma release_adds_quantity_witness :
  findEvent 1 (cancelBooking noFaults alice (Some 1) booked).2
    = Some (0%nat, concert 10 10)
  ∧ 10 ≤ 10.
Proof.
  destruct (release_adds_quantity noFaults alice 1 booked 0%nat
              (Booking.mk (Some 1) "alice" 1 3 (75 # 1) active) 0%nat (concert 10 7))
    as [Hf Hle]; try reflexivity.
  split; [exact Hf|]. apply Hle.
  - intros eid [= <-]. reflexivity.
  - intros b' ->%list_elem_of_singleton. simpl. lia.
Defined.

(** ** Reservation attempts *)

Lemma newBooking_valid u eid q e :
  Event.validate e = true → 1 ≤ q →
  Booking.validate (newBooking u eid q (Event.price e)) = true.
Proof.
  unfold Event.validate, Booking.validate. simpl.
  intros [[Hp _]%andb_true_iff _]%andb_true_iff Hq.
  apply andb_true_iff. split; [lia|].
  apply Qle_bool_iff, Qmult_le_0_compat; [by apply Qle_bool_iff|].
  unfold Qle. simpl. lia.
Qed.

Lemma idTaken_above db n :
  idsBelowCounter db → default 0 (counters db !! "bookingId") < n →
  idTaken n (bookings db) = false.
Proof.
  intros Hbelow Hlt. unfold idTaken. apply bool_decide_eq_false.
  intros (b & Hb & Hid)%Exists_exists.
  specialize (Hbelow b n Hb Hid). lia.
Qed.

(** A create request that meets no fault, on a valid event with enough
    tickets and a counter ahead of the stored ids, succeeds. *)
Lemma createBooking_ok u eid q db i e :
  findEvent eid db = Some (i, e) →
  Event.validate e = true →
  1 ≤ q ≤ Event.availableTickets e →
  idsBelowCounter db →
  let e1 := Event.set_availableTickets (Event.availableTickets e - q) e in
  ∃ b db',
    createBooking noFaults u (mkCreateBody (IdNum eid) (Some q)) db = (Created b, db') ∧
    findEvent eid db' = Some (i, e1) ∧
    Event.validate e1 = true ∧
    idsBelowCounter db'.
Proof.
  intros Hfind Hval [Hq1 Hq2] Hbelow e1.
  assert (Event.validate e1 = true) as Hval1.
  { unfold Event.validate in *. subst e1. simpl.
    apply andb_true_iff in Hval as [Hval _]. rewrite Hval. simpl. lia. }
  unfold createBooking, validCreateBody. simpl.
  destruct (Z.leb_spec 1 q); [|lia].
  rewrite Hfind.
  destruct (Z.ltb_spec (Event.availableTickets e) q); [lia|].
  fold e1. unfold saveEvent. rewrite Hval1. simpl.
  unfold saveNewBooking, nextSeq. rewrite newBooking_valid by done. simpl.
  rewrite (idTaken_above db) by (done || lia).
  eexists _, _. split; [reflexivity|]. split; [|split; [done|]].
  - unfold findEvent in *. simpl.
    apply (list_find_insert_same _ _ _ _ e); [|done].
    by apply list_find_Some in Hfind as (_ & He & _).
  - intros b n. simpl. rewrite lookup_insert_eq. simpl.
    intros [Hb| ->%list_elem_of_singleton]%elem_of_app Hid.
    + specialize (Hbelow b n Hb Hid). lia.
    + simpl in Hid. injection Hid as <-. lia.
Qed.

Lemma createBooking_sold_out fl u eid q db i e :
  findEvent eid db = Some (i, e) →
  1 ≤ q → Event.availableTickets e < q →
  createBooking fl u (mkCreateBody (IdNum eid) (Some q)) db = (NotEnoughTickets, db).
Proof.
  intros Hfind Hq Hlow. unfold createBooking, validCreateBody. simpl.
  destruct (Z.leb_spec 1 q); [|lia]. rewrite Hfind.
  by destruct (Z.ltb_spec (Event.availableTickets e) q); [|lia].
Qed.

Lemma sequential_attempts_count eid i us : ∀ db e,
  findEvent eid db = Some (i, e) →
  Event.validate e = true →
  idsBelowCounter db →
  let rs := (run (attempt eid <$> us) db).1 in
  let n := Z.to_nat (Event.availableTickets e) in
  countIf isCreated rs = (n `min` length us)%nat ∧
  countIf isNotEnough rs = (length us - n)%nat.
Proof.
  induction us as [|u us IH]; intros db e Hfind Hval Hbelow.
  { simpl. split; [by rewrite Nat.min_0_r | done]. }
  assert (0 ≤ Event.availableTickets e) as Hnonneg.
  { unfold Event.validate in Hval. apply andb_true_iff in Hval as [_ Hval]. lia. }
  rewrite fmap_cons. unfold attempt at 1. rewrite run_cons.
  cbn [fst step]. unfold countIf. cbn [List.filter length].
  destruct (decide (1 ≤ Event.availableTickets e)) as [Hsome|Hnone].
  - destruct (createBooking_ok u eid 1 db i e Hfind Hval ltac:(lia) Hbelow)
      as (b & db' & -> & Hfind' & Hval' & Hbelow').
    destruct (IH db' _ Hfind' Hval' Hbelow') as [IHc IHn].
    unfold countIf in IHc, IHn. cbn [fst snd isCreated isNotEnough length].
    cbn [Event.set_availableTickets Event.availableTickets] in IHc, IHn.
    rewrite IHc, IHn. lia.
  - rewrite (createBooking_sold_out noFaults u eid 1 db i e Hfind) by lia.
    destruct (IH db e Hfind Hval Hbelow) as [IHc IHn].
    unfold countIf in IHc, IHn. cbn [fst snd isCreated isNotEnough length].
    rewrite IHc, IHn. lia.
Qed.

(** C2 fails when attempts overlap: two attempts in flight together on
    an event with N = 1 ticket, resumed in turn at each [await], are
    both answered 201 and none is answered 'Not enough tickets
    available': 2 successes instead of 1, 0 refusals instead of 1. The
    check and the decrement are a read followed by a separate write. *)
Lemma interleaved_attempts_oversell :
  let rs :=
    Interleaved.responses
      (Interleaved.interleave [0; 1; 0; 1; 0; 1; 0; 1]%nat
         ([Interleaved.Start noFaults alice (book 1);
           Interleaved.Start noFaults bob (book 1)], venue 1 1)).1 in
  Event.availableTickets (concert 1 1) = 1 ∧
  length rs = 2%nat ∧
  countIf isCreated rs = 2%nat ∧
  countIf isNotEnough rs = 0%nat.
Proof. vm_compute. repeat split. Qed.

(** C2, as the code has it. The reservation step of the create route
    reads the event, compares, and saves the decremented document in a
    separate write. When M attempts of quantity 1 on an event with N
    available tickets run one after the other, each to completion before
    the next starts and without storage fault, and M > N, exactly N of
    them are answered 201 and the other M - N are answered 400 'Not
    enough tickets available'. *)
Theorem sequential_attempts eid db i e us :
  findEvent eid db = Some (i, e) →
  Event.validate e = true →
  idsBelowCounter db →
  (Z.to_nat (Event.availableTickets e) < length us)%nat →
  let rs := (run (attempt eid <$> us) db).1 in
  countIf isCreated rs = Z.to_nat (Event.availableTickets e) ∧
  countIf isNotEnough rs = (length us - Z.to_nat (Event.availableTickets e))%nat.
Proof.
  intros Hfind Hval Hbelow HM.
  destruct (sequential_attempts_count eid i us db e Hfind Hval Hbelow) as [Hc Hn].
  simpl in *. rewrite Hc, Hn. lia.
Qed.

Lemma sequential_attempts_witness :
  countIf isCreated (run (attempt 1 <$> [alice; bob; root]) (venue 2 2)).1 = 2%nat ∧
  countIf isNotEnough (run (attempt 1 <$> [alice; bob; root]) (venue 2 2)).1 = 1%nat.
Proof.
  apply (sequential_attempts 1 (venue 2 2) 0%nat (concert 2 2) [alice; bob; root]).
  - reflexivity.
  - reflexivity.
  - intros b n Hb. simpl in Hb. by apply elem_of_nil in Hb.
  - simpl. lia.
Defined.

(** A task that is resumed four times in a row, with no other task in
    between, does what the handler does as one function. *)
Lemma uninterrupted_task_is_createBooking fl u body db :
  Interleaved.interleave [0; 0; 0; 0]%nat ([Interleaved.Start fl u body], db)
  = ([Interleaved.Done (createBooking fl u body db).1], (createBooking fl u body db).2).
Proof.
  unfold Interleaved.interleave, Interleaved.resume. simpl.
  case_create; try done.
  - unfold saveNewBooking in Hins.
    destruct (Booking.validate _); simpl in *; [|by simplify_eq].
    destruct (counterFails fl); simpl in *; [by simplify_eq|].
    unfold nextSeq in *. simpl in *.
    destruct (_ || _); simpl in *; by simplify_eq.
  - unfold saveNewBooking in Hins.
    destruct (Booking.validate _); simpl in *; [|by simplify_eq].
    destruct (counterFails fl); simpl in *; [by simplify_eq|].
    unfold nextSeq in *. simpl in *.
    destruct (_ || _); simpl in *; by simplify_eq.
Qed.

(** * Further properties of the routes *)

(** ** The event update route and the inventory *)




(** X2. For an event that satisfies the inventory equation, the update
    route refuses a new [totalTickets] with 400 'Cannot reduce total
    tickets below the number of tickets already booked', leaving the
    store as it is, exactly when the new total is smaller than the sum
    of the quantities of the active bookings on the event. *)
Theorem updateEvent_refuses_below_booked fl u eid body db i e n :
  isAdmin u = true →
  findEvent eid db = Some (i, e) →
  balanced db e →
  u_totalTickets body = Some n →
  updateEvent fl u (Some eid) body db = (CannotReduceTickets, db)
  ↔ n < activeQuantity eid (bookings db).
Proof.
  intros Hadm Hfind Hbal Hn. unfold updateEvent.
  rewrite Hadm, Hfind, Hn. simpl.
  pose proof Hfind as (_ & Hid & _)%list_find_Some.
  specialize (Hbal eid Hid).
  destruct (Z.ltb_spec (Event.availableTickets e + (n - Event.totalTickets e)) 0).
  - split; [lia|done].
  - split; [|lia].
    destruct (saveEvent _ _ _ _); discriminate.
Qed.

Lemma updateEvent_refuses_below_booked_witness :
  updateEvent noFaults root (Some 1) (mkUpdateBody None (Some 2) None) booked
    = (CannotReduceTickets, booked)
  ↔ 2 < activeQuantity 1 (bookings booked).
Proof.
  apply (updateEvent_refuses_below_booked noFaults root 1
           (mkUpdateBody None (Some 2) None) booked 0%nat (concert 10 7) 2).
  - reflexivity.
  - reflexivity.
  - intros eid [= <-]. reflexivity.
  - reflexivity.
Defined.

(** ** Deleting and creating events *)

Lemma list_find_delete_other {A} (P : A → Prop) `{!∀ x, Decision (P x)}
    (l : list A) : ∀ i x,
  l !! i = Some x → ¬ P x →
  snd <$> list_find P (delete i l) = snd <$> list_find P l.
Proof.
  induction l as [|y l IH]; intros [|i] x Hi Hx; simplify_eq/=.
  - case_decide; [done|]. by destruct (list_find P l) as [[??]|].
  - case_decide; [done|].
    specialize (IH i x Hi Hx).
    destruct (list_find P (delete i l)) as [[??]|],
             (list_find P l) as [[??]|]; simplify_eq/=; done.
Qed.

Lemma delete_keeps_distinct_ids (es : list Event.t) i :
  NoDup (Event.id <$> es) → NoDup (Event.id <$> delete i es).
Proof.
  intros Hnd. rewrite list_fmap_delete.
  eapply sublist_NoDup; [done | apply sublist_delete].
Qed.

(** X3. A successful delete of an event, in a store with distinct event
    ids, removes that event only: its id is no longer found, every
    other id still finds the document it found before, the ids stay
    distinct, and the bookings (also those on the deleted event) and
    the counters are untouched. *)
Theorem deleteEvent_removes_one u eid db db' :
  NoDup (Event.id <$> events db) →
  deleteEvent u (Some eid) db = (EventDeleted, db') →
  findEvent eid db' = None ∧
  (∀ eid', eid' ≠ eid → snd <$> findEvent eid' db' = snd <$> findEvent eid' db) ∧
  NoDup (Event.id <$> events db') ∧
  bookings db' = bookings db ∧
  counters db' = counters db.
Proof.
  intros Hnd. unfold deleteEvent.
  destruct (isAdmin u); [|discriminate]. simpl.
  destruct (findEvent eid db) as [[i e]|] eqn:Hfind; [|discriminate].
  intros [= <-]. unfold findEvent in *. simpl.
  split; [by apply (delete_found_event _ _ _ e)|].
  split; [|split; [by apply delete_keeps_distinct_ids | done]].
  intros eid' Hne.
  apply list_find_Some in Hfind as (Hi & Hid & _).
  apply (list_find_delete_other _ _ _ e); [done|]. congruence.
Qed.

Lemma deleteEvent_removes_one_witness :
  findEvent 1 (deleteEvent root (Some 1) booked).2 = None ∧
  bookings (deleteEvent root (Some 1) booked).2 = bookings booked.
Proof.
  destruct (deleteEvent_removes_one root 1 booked (deleteEvent root (Some 1) booked).2)
    as (H1 & _ & _ & H4 & _).
  - vm_compute. apply NoDup_singleton.
  - reflexivity.
  - split; [exact H1 | exact H4].
Defined.

(** X4. An event created by the create route is stored with the next
    [eventId] of the counter as its id and with all of its tickets
    available, at least one; looking that id up afterwards finds exactly
    this event; the earlier events and the bookings are as before. *)
Theorem createEvent_then_find fl u p total db e db' :
  createEvent fl u p total db = (EventSaved e, db') →
  ∃ n seq,
    total = Some n ∧ 1 ≤ n ∧
    seq = (nextSeq "eventId" (counters db)).1 ∧
    e = Event.mk (Some seq) p n n ∧
    events db' = events db ++ [e] ∧
    findEvent seq db' = Some (length (events db), e) ∧
    bookings db' = bookings db.
Proof.
  unfold createEvent. destruct (isAdmin u); [|discriminate]. simpl.
  destruct total as [n|]; [|discriminate].
  destruct (Z.ltb_spec n 1); [discriminate|].
  unfold saveNewEvent, nextSeq.
  destruct (Event.validate _); [|discriminate]. simpl.
  destruct (counterFails fl); [discriminate|].
  destruct (eventSaveFails fl); [discriminate|]. simpl.
  destruct (eventIdTaken _ _) eqn:Htaken; [discriminate|].
  intros [= <- <-]. eexists n, _. split_and!; try done.
  unfold findEvent. simpl.
  apply bool_decide_eq_false in Htaken.
  rewrite list_find_app_r.
  - simpl. by rewrite decide_True by done.
  - apply list_find_None, Forall_forall. intros x Hx Hid.
    apply Htaken, Exists_exists. eauto.
Qed.

Lemma createEvent_then_find_witness :
  findEvent 1 (createEvent noFaults root (30 # 1) (Some 50) (mkDb [] [] ∅)).2
    = Some (0%nat, Event.mk (Some 1) (30 # 1) 50 50).
Proof.
  destruct (createEvent_then_find noFaults root (30 # 1) (Some 50) (mkDb [] [] ∅)
              (Event.mk (Some 1) (30 # 1) 50 50)
              (createEvent noFaults root (30 # 1) (Some 50) (mkDb [] [] ∅)).2)
    as (n & seq & _ & _ & -> & _ & _ & Hfind & _); [reflexivity|].
  exact Hfind.
Defined.

(** ** Booking, then cancelling *)

Lemma saveNewBooking_valid fl b db b1 db1 :
  saveNewBooking fl b db = (Some b1, db1) → Booking.validate b1 = true.
Proof.
  unfold saveNewBooking, nextSeq.
  destruct (Booking.validate b) eqn:Hval; [|discriminate]. simpl.
  destruct (counterFails fl); [discriminate|].
  destruct (_ || _); [discriminate|]. by intros [= <- <-].
Qed.

(** X5. The booking returned by a successful create request is active,
    carries an id, and is the booking that a lookup of that id finds in
    the resulting store, at the end of the collection. *)
Theorem createBooking_then_find fl u body db b db' :
  createBooking fl u body db = (Created b, db') →
  Booking.status b = active ∧
  ∃ n, Booking.id b = Some n ∧
       findBooking n db' = Some (length (bookings db), b).
Proof.
  case_create; intros [= <- <-].
  apply saveEvent_Some in Hsave as (_ & _ & ->).
  apply saveNewBooking_Some in Hins as (-> & Htaken & ->). simpl in *.
  split; [done|]. eexists. split; [done|].
  unfold findBooking. simpl.
  apply bool_decide_eq_false in Htaken.
  rewrite list_find_app_r.
  - simpl. by rewrite decide_True by done.
  - apply list_find_None, Forall_forall. intros x Hx Hid.
    apply Htaken, Exists_exists. eauto.
Qed.

Lemma createBooking_then_find_witness :
  Booking.status (Booking.mk (Some 1) "alice" 1 3 (75 # 1) active) = active ∧
  ∃ n, Booking.id (Booking.mk (Some 1) "alice" 1 3 (75 # 1) active) = Some n ∧
       findBooking n booked
         = Some (length (bookings (venue 10 10)),
                 Booking.mk (Some 1) "alice" 1 3 (75 # 1) active).
Proof.
  apply (createBooking_then_find noFaults alice (book 3) (venue 10 10)).
  reflexivity.
Defined.

Lemma set_availableTickets_same e :
  Event.set_availableTickets (Event.availableTickets e) e = e.
Proof. by destruct e. Qed.

(** X6. Cancelling a booking right after it was created undoes the
    reservation: when the create request was answered 201 and the
    owner's cancel request meets no write fault, the cancel request is
    answered 200, the events are exactly as they were before the
    booking was made, and the booking is kept with status cancelled. *)
Theorem create_then_cancel_restores_events fl fl' u body db b db1 n :
  createBooking fl u body db = (Created b, db1) →
  Booking.id b = Some n →
  eventSaveFails fl' = false →
  bookingSaveFails fl' = false →
  ∃ db2,
    cancelBooking fl' u (Some n) db1
      = (CancelledOk (Booking.set_status cancelled b), db2) ∧
    events db2 = events db ∧
    bookings db2 = bookings db ++ [Booking.set_status cancelled b].
Proof.
  intros Hcreate Hid Hfe Hfb.
  destruct (createBooking_then_find _ _ _ _ _ _ Hcreate) as (Hact & n' & Hid' & Hfindb).
  assert (n' = n) as -> by congruence.
  revert Hcreate. case_create; intros [= <- <-].
  apply validCreateBody_Some in Hvalid as (_ & _ & Hq & _).
  pose proof (saveNewBooking_valid _ _ _ _ _ Hins) as Hbval.
  apply saveEvent_Some in Hsave as (He1 & _ & ->).
  apply saveNewBooking_Some in Hins as (-> & _ & ->).
  pose proof Hfind as (Hi & Hide & _)%list_find_Some.
  apply Z.ltb_ge in Hlow.
  set (e1 := Event.set_availableTickets (Event.availableTickets e - q) e) in *.
  unfold cancelBooking. rewrite Hfindb. simpl.
  rewrite String.eqb_refl. simpl.
  replace (findEvent eid _) with (Some (i, e1)); cycle 1.
  { symmetry. unfold findEvent in *. simpl.
    by apply (list_find_insert_same _ _ _ _ e). }
  replace (Event.set_availableTickets (Event.availableTickets e1 + q) e1) with e; cycle 1.
  { subst e1. destruct e. unfold Event.set_availableTickets. simpl. f_equal. lia. }
  assert (Event.validate e = true) as Hval.
  { unfold Event.validate in *. subst e1. simpl in *.
    apply andb_true_iff in He1 as [-> _]. simpl. lia. }
  unfold saveEvent, saveBooking. rewrite Hval, Hfe. simpl.
  replace (Booking.validate _) with true by done.
  rewrite Hfb. simpl. eexists. split; [done|]. simpl. split.
  - rewrite list_insert_insert_eq. by apply list_insert_id.
  - rewrite insert_app_r_alt, Nat.sub_diag by done. done.
Qed.

Lemma create_then_cancel_restores_events_witness :
  ∃ db2,
    cancelBooking noFaults alice (Some 1) booked
      = (CancelledOk (Booking.mk (Some 1) "alice" 1 3 (75 # 1) cancelled), db2) ∧
    events db2 = events (venue 10 10) ∧
    bookings db2
      = bookings (venue 10 10) ++ [Booking.mk (Some 1) "alice" 1 3 (75 # 1) cancelled].
Proof.
  apply (create_then_cancel_restores_events noFaults noFaults alice (book 3)
           (venue 10 10) (Booking.mk (Some 1) "alice" 1 3 (75 # 1) active) booked 1);
    reflexivity.
Defined.

(** ** Stored documents stay valid *)

Lemma createBooking_events fl u body db :
  EventsChange (events db) (events (createBooking fl u body db).2).
Proof.
  case_create; try constructor.
  - apply saveEvent_Some in Hsave as (Hval & _ & ->).
    apply saveNewBooking_Some in Hins as (_ & _ & ->). simpl. by constructor.
  - apply saveEvent_Some in Hsave as (Hval & _ & ->).
    apply saveNewBooking_None in Hins as (-> & _). simpl. by constructor.
Qed.

Lemma cancelBooking_events fl u param db :
  EventsChange (events db) (events (cancelBooking fl u param db).2).
Proof.
  destruct param as [bid|]; [|constructor].
  case_cancel; try constructor.
  - apply saveEvent_Some in Hsave as (Hval & _ & ->).
    apply saveBooking_Some in Hsaveb as (_ & _ & ->). simpl. by constructor.
  - apply saveEvent_Some in Hsave as (Hval & _ & ->). simpl. by constructor.
Qed.

Lemma step_events fl op db :
  EventsChange (events db) (events (step fl op db).2).
Proof.
  destruct op as [u body|u param|u param body|u param|u p total]; simpl.
  - apply createBooking_events.
  - apply cancelBooking_events.
  - unfold updateEvent. destruct (isAdmin u); [|constructor]. simpl.
    destruct param as [eid|]; [|constructor].
    destruct (findEvent eid db) as [[i e]|]; [|constructor].
    match goal with |- context [if ?c then _ else _] => destruct c end; [constructor|].
    destruct (saveEvent _ _ _ _) as [db1|] eqn:Hsave; [|constructor].
    apply saveEvent_Some in Hsave as (Hval & _ & ->). simpl. by constructor.
  - unfold deleteEvent. destruct (isAdmin u); [|constructor]. simpl.
    destruct param as [eid|]; [|constructor].
    destruct (findEvent eid db) as [[i e]|]; constructor.
  - unfold createEvent. destruct (isAdmin u); [|constructor]. simpl.
    destruct total as [n|]; [|constructor]. destruct (n <? 1); [constructor|].
    unfold saveNewEvent, nextSeq.
    destruct (Event.validate _) eqn:Hval; [|constructor]. simpl.
    destruct (counterFails fl); [constructor|].
    destruct (_ || _); simpl; by constructor.
Qed.

Lemma step_bookings_valid fl op db :
  Forall (λ b, Booking.validate b = true) (bookings db) →
  Forall (λ b, Booking.validate b = true) (bookings (step fl op db).2).
Proof.
  intros Hval. destruct op as [u body|u param|u param body|u param|u p total]; simpl.
  - case_create; try done.
    + pose proof (saveNewBooking_valid _ _ _ _ _ Hins) as Hb.
      apply saveEvent_Some in Hsave as (_ & _ & ->).
      apply saveNewBooking_Some in Hins as (_ & _ & ->). simpl.
      apply Forall_app. split; [done|]. by constructor.
    + apply saveEvent_Some in Hsave as (_ & _ & ->).
      by apply saveNewBooking_None in Hins as (_ & ->).
  - destruct param as [bid|]; [|done]. case_cancel; try done.
    + apply saveEvent_Some in Hsave as (_ & _ & ->).
      apply saveBooking_Some in Hsaveb as (Hb & _ & ->). simpl.
      by apply Forall_insert.
    + by apply saveEvent_Some in Hsave as (_ & _ & ->).
  - by rewrite updateEvent_bookings.
  - by rewrite deleteEvent_bookings.
  - by rewrite createEvent_bookings.
Qed.

Lemma step_valid fl op db : storeValid db → storeValid (step fl op db).2.
Proof.
  intros [He Hb]. split; [|by apply step_bookings_valid].
  destruct (step_events fl op db) as [|i e1 Hval|i|e1 Hval].
  - done.
  - by apply Forall_insert.
  - by apply Forall_delete.
  - apply Forall_app. split; [done|]. by constructor.
Qed.

Lemma run_valid ops : ∀ db, storeValid db → storeValid (run ops db).2.
Proof.
  induction ops as [|[fl op] rest IH]; intros db Hval; [done|].
  rewrite run_cons. simpl. by apply IH, step_valid.
Qed.

(** X7. Whatever requests are served (bookings, cancellations, event
    updates, deletions and creations), with whatever write faults,
    every document of a store that was valid stays within its schema
    validators; in particular no event ever has a negative number of
    available tickets or a total below 1, and no booking a quantity
    below 1. *)
Theorem run_keeps_documents_valid ops db :
  storeValid db →
  storeValid (run ops db).2 ∧
  (∀ e, e ∈ events (run ops db).2 →
     0 ≤ Event.availableTickets e ∧ 1 ≤ Event.totalTickets e) ∧
  (∀ b, b ∈ bookings (run ops db).2 → 1 ≤ Booking.quantity b).
Proof.
  intros Hval.
  destruct (run_valid ops db Hval) as [He Hb].
  split; [done|]. split.
  - intros e Hin. rewrite Forall_forall in He. specialize (He e Hin).
    unfold Event.validate in He.
    apply andb_true_iff in He as [[_ Ht]%andb_true_iff Ha]. lia.
  - intros b Hin. rewrite Forall_forall in Hb. specialize (Hb b Hin).
    unfold Booking.validate in Hb. apply andb_true_iff in Hb as [Hq _]. lia.
Qed.

Lemma run_keeps_documents_valid_witness :
  storeValid
    (run [(noFaults, OpCreate alice (book 3));
          (bookingWriteFails, OpCancel alice (Some 1))] (venue 10 10)).2.
Proof.
  apply (run_keeps_documents_valid
           [(noFaults, OpCreate alice (book 3));
            (bookingWriteFails, OpCancel alice (Some 1))] (venue 10 10)).
  split; [|constructor]. repeat constructor.
Defined.

(** ** Booking ids *)

Lemma flip_keeps_ids (bs : list Booking.t) j b :
  bs !! j = Some b →
  Booking.id <$> <[j := Booking.set_status cancelled b]> bs = Booking.id <$> bs.
Proof.
  intros Hj. rewrite list_fmap_insert. simpl.
  apply list_insert_id. by rewrite list_lookup_fmap, Hj.
Qed.

Lemma idsBelowCounter_flip db j b c es :
  idsBelowCounter db → bookings db !! j = Some b →
  default 0 (counters db !! "bookingId") ≤ default 0 (c !! "bookingId") →
  idsBelowCounter (mkDb es (<[j := Booking.set_status cancelled b]> (bookings db)) c).
Proof.
  intros Hbelow Hj Hc b' n (k & Hk)%list_elem_of_lookup Hid. simpl in *.
  apply list_lookup_insert_Some in Hk as [(-> & <- & _)|(_ & Hk)].
  - specialize (Hbelow b n (list_elem_of_lookup_2 _ _ _ Hj) Hid). lia.
  - specialize (Hbelow b' n (list_elem_of_lookup_2 _ _ _ Hk) Hid). lia.
Qed.

Lemma saveNewBooking_None_ids fl b db db1 :
  saveNewBooking fl b db = (None, db1) → idsInOrder db → idsInOrder db1.
Proof.
  unfold saveNewBooking, nextSeq. intros Hins [Hbelow Hnd].
  destruct (Booking.validate b); simpl in Hins; [|by injection Hins as <-].
  destruct (counterFails fl); [by injection Hins as <-|].
  destruct (_ || _); [|discriminate]. injection Hins as <-.
  split; [|done]. intros b' n Hb Hid. simpl in *.
  rewrite lookup_insert_eq. simpl.
  specialize (Hbelow b' n Hb Hid). lia.
Qed.

Lemma step_ids_in_order fl op db : idsInOrder db → idsInOrder (step fl op db).2.
Proof.
  intros [Hbelow Hnd].
  destruct op as [u body|u param|u param body|u param|u p total]; simpl.
  - case_create; try done.
    + apply saveEvent_Some in Hsave as (_ & _ & ->).
      apply saveNewBooking_Some in Hins as (-> & Htaken & ->). simpl in *.
      apply bool_decide_eq_false in Htaken. split.
      * intros b n. simpl. rewrite lookup_insert_eq. simpl.
        intros [Hb| ->%list_elem_of_singleton]%elem_of_app Hid.
        -- specialize (Hbelow b n Hb Hid). lia.
        -- simpl in Hid. injection Hid as <-. lia.
      * simpl. rewrite fmap_app. apply NoDup_app. split; [done|]. split.
        -- intros x (b & -> & Hb)%list_elem_of_fmap Hid%list_elem_of_singleton.
           apply Htaken, Exists_exists. eauto.
        -- apply NoDup_singleton.
    + apply saveEvent_Some in Hsave as (_ & _ & ->).
      by apply (saveNewBooking_None_ids _ _ _ _ Hins).
  - destruct param as [bid|]; [|done]. case_cancel; try done.
    + apply saveEvent_Some in Hsave as (_ & _ & ->).
      apply saveBooking_Some in Hsaveb as (_ & _ & ->). simpl.
      apply list_find_Some in Hfindb as (Hj & _). split.
      * by apply idsBelowCounter_flip.
      * simpl. by rewrite flip_keeps_ids.
    + by apply saveEvent_Some in Hsave as (_ & _ & ->).
  - unfold updateEvent. destruct (isAdmin u); [|done]. simpl.
    destruct param as [eid|]; [|done].
    destruct (findEvent eid db) as [[i e]|]; [|done].
    match goal with |- context [if ?c then _ else _] => destruct c end; [done|].
    destruct (saveEvent _ _ _ _) as [db1|] eqn:Hsave; [|done].
    by apply saveEvent_Some in Hsave as (_ & _ & ->).
  - unfold deleteEvent. destruct (isAdmin u); [|done]. simpl.
    destruct param as [eid|]; [|done].
    by destruct (findEvent eid db) as [[i e]|].
  - unfold createEvent. destruct (isAdmin u); [|done]. simpl.
    destruct total as [n|]; [|done]. destruct (n <? 1); [done|].
    unfold saveNewEvent, nextSeq.
    destruct (Event.validate _); [|done]. simpl.
    destruct (counterFails fl); [done|].
    assert (idsBelowCounter
              (set_counters (<["eventId" := default 0 (counters db !! "eventId") + 1]>
                               (counters db)) db)) as Hbelow'.
    { intros b n' Hb Hid. simpl in *. rewrite lookup_insert_ne by done. eauto. }
    destruct (_ || _); simpl; split; done.
Qed.

Lemma run_ids_in_order ops : ∀ db, idsInOrder db → idsInOrder (run ops db).2.
Proof.
  induction ops as [|[fl op] rest IH]; intros db Hord; [done|].
  rewrite run_cons. simpl. by apply IH, step_ids_in_order.
Qed.

(** X8. From a store whose booking ids are pairwise distinct and not
    ahead of the [bookingId] counter (an empty store, for one), every
    run of requests, with whatever write faults, leads to a store with
    the same two properties: no two bookings ever share an id, and the
    counter is never behind a stored id. *)
Theorem run_keeps_booking_ids_distinct ops db :
  idsBelowCounter db →
  NoDup (Booking.id <$> bookings db) →
  idsBelowCounter (run ops db).2 ∧
  NoDup (Booking.id <$> bookings (run ops db).2).
Proof.
  intros Hbelow Hnd. by apply (run_ids_in_order ops db).
Qed.

Lemma run_keeps_booking_ids_distinct_witness :
  NoDup (Booking.id <$>
           bookings (run [(noFaults, OpCreate alice (book 3));
                          (bookingWriteFails, OpCreate bob (book 1));
                          (noFaults, OpCreate bob (book 1))] (venue 10 10)).2).
Proof.
  apply (run_keeps_booking_ids_distinct
           [(noFaults, OpCreate alice (book 3));
            (bookingWriteFails, OpCreate bob (book 1));
            (noFaults, OpCreate bob (book 1))] (venue 10 10)).
  - intros b n Hb. simpl in Hb. by apply elem_of_nil in Hb.
  - simpl. apply NoDup_nil_2.
Defined.

(** X9. After any run of requests from a valid store with its booking
    ids in order, a create request that meets no write fault and asks
    for at least one and at most the available tickets of an existing
    event is answered 201: it is never turned down by a validator or by
    the unique index. The event is left with that many tickets less. *)
Theorem create_succeeds_after_any_run ops db0 u eid q i e :
  storeValid db0 →
  idsBelowCounter db0 →
  NoDup (Booking.id <$> bookings db0) →
  findEvent eid (run ops db0).2 = Some (i, e) →
  1 ≤ q ≤ Event.availableTickets e →
  ∃ b db',
    createBooking noFaults u (mkCreateBody (IdNum eid) (Some q)) (run ops db0).2
      = (Created b, db') ∧
    findEvent eid db'
      = Some (i, Event.set_availableTickets (Event.availableTickets e - q) e).
Proof.
  intros Hval Hbelow Hnd Hfind Hq.
  destruct (run_valid ops db0 Hval) as [He _].
  destruct (run_ids_in_order ops db0 (conj Hbelow Hnd)) as [Hbelow' _].
  assert (Event.validate e = true) as Hvale.
  { rewrite Forall_forall in He. apply He.
    apply list_find_Some in Hfind as (Hi & _).
    by eapply list_elem_of_lookup_2. }
  destruct (createBooking_ok u eid q _ i e Hfind Hvale Hq Hbelow')
    as (b & db' & Hc & Hf & _).
  by exists b, db'.
Qed.

Lemma create_succeeds_after_any_run_witness :
  ∃ b db',
    createBooking noFaults bob (mkCreateBody (IdNum 1) (Some 7))
      (run [(noFaults, OpCreate alice (book 3))] (venue 10 10)).2 = (Created b, db') ∧
    findEvent 1 db' = Some (0%nat, Event.set_availableTickets (7 - 7) (concert 10 7)).
Proof.
  apply (create_succeeds_after_any_run [(noFaults, OpCreate alice (book 3))]
           (venue 10 10) bob 1 7 0%nat (concert 10 7)).
  - split; [|constructor]. repeat constructor.
  - intros b n Hb. simpl in Hb. by apply elem_of_nil in Hb.
  - simpl. apply NoDup_nil_2.
  - reflexivity.
  - simpl. lia.
Defined.

(** ** Favorites *)

Lemma includes_true uid (users : list string) :
  includes uid users = true ↔ uid ∈ users.
Proof.
  unfold includes. rewrite existsb_exists. split.
  - intros (x & Hx & ->%String.eqb_eq). by apply list_elem_of_In.
  - intros Hin. exists uid. split; [by apply list_elem_of_In|]. apply String.eqb_refl.
Qed.

Lemma includes_false uid (users : list string) :
  includes uid users = false ↔ uid ∉ users.
Proof. rewrite <- includes_true. by destruct (includes uid users). Qed.

Lemma filter_out_absent uid (users : list string) :
  uid ∉ users →
  List.filter (λ userId, negb (String.eqb userId uid)) users = users.
Proof.
  induction users as [|x l IH]; intros Hnot; simpl; [done|].
  apply not_elem_of_cons in Hnot as [Hne Hnot].
  destruct (String.eqb_spec x uid); [congruence|]. simpl. by rewrite IH.
Qed.

Lemma filter_out_gone uid (users : list string) :
  uid ∉ List.filter (λ userId, negb (String.eqb userId uid)) users.
Proof.
  intros Hin%list_elem_of_In%filter_In. destruct Hin as [_ Hne].
  by rewrite String.eqb_refl in Hne.
Qed.

Lemma filter_out_length uid (users : list string) :
  NoDup users → uid ∈ users →
  S (length (List.filter (λ userId, negb (String.eqb userId uid)) users))
    = length users.
Proof.
  induction 1 as [|x l Hx Hnd IH]; intros Hin; [by apply elem_of_nil in Hin|].
  simpl. destruct (String.eqb_spec x uid) as [->|Hne]; simpl.
  - by rewrite filter_out_absent.
  - apply elem_of_cons in Hin as [->|Hin]; [done|]. by rewrite IH.
Qed.

Lemma saveDoc_Some fl i d es es1 :
  saveDoc fl i d es = Some es1 →
  Event.validate (core d) = true ∧ eventSaveFails fl = false ∧ es1 = <[i := d]> es.
Proof.
  unfold saveDoc.
  destruct (Event.validate (core d)), (eventSaveFails fl); simpl; intros [= <-]; auto.
Qed.

(** X10. The favorite routes keep every event's [interestedCount] equal
    to the number of users in [interestedUsers], each user listed once:
    if that holds for all documents before an add or a remove request,
    it holds after it, whatever the request is answered. *)
Theorem favorite_routes_keep_count fl u param es :
  Forall favConsistent es →
  Forall favConsistent (addFavorite fl u param es).2 ∧
  Forall favConsistent (removeFavorite fl u param es).2.
Proof.
  intros Hall. split.
  - unfold addFavorite. destruct param as [eid|]; [|done].
    destruct (findDoc eid es) as [[i d]|] eqn:Hfind; [|done].
    destruct (includes _ _) eqn:Hinc; [done|].
    destruct (saveDoc _ _ _ _) as [es1|] eqn:Hsave; [|done].
    apply saveDoc_Some in Hsave as (_ & _ & ->). simpl.
    apply Forall_insert; [done|].
    apply list_find_Some in Hfind as (Hi & _).
    destruct (Forall_lookup_1 _ _ _ _ Hall Hi) as [Hnd Hcount].
    apply includes_false in Hinc. split; simpl.
    + apply NoDup_app. split; [done|]. split; [|apply NoDup_singleton].
      by intros x Hx ->%list_elem_of_singleton.
    + rewrite length_app. simpl. lia.
  - unfold removeFavorite. destruct param as [eid|]; [|done].
    destruct (findDoc eid es) as [[i d]|] eqn:Hfind; [|done].
    destruct (includes _ _) eqn:Hinc; [|done]. simpl.
    destruct (saveDoc _ _ _ _) as [es1|] eqn:Hsave; [|done].
    apply saveDoc_Some in Hsave as (_ & _ & ->). simpl.
    apply Forall_insert; [done|].
    apply list_find_Some in Hfind as (Hi & _).
    destruct (Forall_lookup_1 _ _ _ _ Hall Hi) as [Hnd Hcount].
    apply includes_true in Hinc. split; simpl.
    + apply NoDup_ListNoDup, List.NoDup_filter. by apply NoDup_ListNoDup.
    + pose proof (filter_out_length _ _ Hnd Hinc). lia.
Qed.

Lemma favorite_routes_keep_count_witness :
  Forall favConsistent
    (addFavorite noFaults alice (Some 1) [mkEventDoc (concert 10 10) ["bob"] 1]).2.
Proof.
  apply (favorite_routes_keep_count noFaults alice (Some 1)
           [mkEventDoc (concert 10 10) ["bob"] 1]).
  repeat constructor. set_solver.
Defined.

(** X11. Adding an event to the favorites and removing it again gives
    back the collection as it was: for a valid event that is not yet a
    favorite of the user, and without write fault, the add request is
    answered with the count plus one, the remove request with the
    original count, and every document is then as before the two
    requests. *)
Theorem add_then_remove_favorite fl fl' u eid es i d :
  findDoc eid es = Some (i, d) →
  includes (_id u) (interestedUsers d) = false →
  Event.validate (core d) = true →
  eventSaveFails fl = false →
  eventSaveFails fl' = false →
  ∃ es1,
    addFavorite fl u (Some eid) es = (FavoriteAdded (interestedCount d + 1), es1) ∧
    removeFavorite fl' u (Some eid) es1 = (FavoriteRemoved (interestedCount d), es).
Proof.
  intros Hfind Hinc Hval Hfl Hfl'.
  pose proof Hfind as (Hi & Hid & _)%list_find_Some.
  unfold addFavorite. rewrite Hfind, Hinc.
  unfold saveDoc at 1. simpl. rewrite Hval, Hfl. simpl.
  eexists. split; [done|].
  unfold removeFavorite.
  replace (findDoc eid (<[i:=_]> es))
    with (Some (i, mkEventDoc (core d) (interestedUsers d ++ [_id u])
                     (interestedCount d + 1))); cycle 1.
  { symmetry. unfold findDoc in *. by apply (list_find_insert_same _ _ _ _ d). }
  simpl.
  replace (includes _ _) with true; cycle 1.
  { symmetry. apply includes_true, elem_of_app. right. by left. }
  simpl. unfold saveDoc. simpl. rewrite Hval, Hfl'. simpl.
  rewrite List.filter_app. simpl. rewrite String.eqb_refl. simpl.
  rewrite app_nil_r, filter_out_absent by by apply includes_false.
  replace (interestedCount d + 1 - 1) with (interestedCount d) by lia.
  rewrite list_insert_insert_eq. f_equal. f_equal.
  apply list_insert_id. by destruct d.
Qed.

Lemma add_then_remove_favorite_witness :
  ∃ es1,
    addFavorite noFaults alice (Some 1) [mkEventDoc (concert 10 10) ["bob"] 1]
      = (FavoriteAdded (1 + 1), es1) ∧
    removeFavorite noFaults alice (Some 1) es1
      = (FavoriteRemoved 1, [mkEventDoc (concert 10 10) ["bob"] 1]).
Proof.
  apply (add_then_remove_favorite noFaults noFaults alice 1
           [mkEventDoc (concert 10 10) ["bob"] 1] 0%nat
           (mkEventDoc (concert 10 10) ["bob"] 1)); reflexivity.
Defined.

(** X12. A favorite cannot be added twice nor removed twice: after a
    successful add, every further add request of the same user for the
    same event is answered 400 'Event already in favorites', and after a
    successful remove every further remove request is answered 400
    'Event not in favorites'; both leave the collection unchanged. *)
Theorem favorite_not_repeated fl fl' u param es c es1 :
  (addFavorite fl u param es = (FavoriteAdded c, es1) →
   addFavorite fl' u param es1 = (AlreadyInFavorites, es1)) ∧
  (removeFavorite fl u param es = (FavoriteRemoved c, es1) →
   removeFavorite fl' u param es1 = (NotInFavorites, es1)).
Proof.
  split.
  - unfold addFavorite. destruct param as [eid|]; [|discriminate].
    destruct (findDoc eid es) as [[i d]|] eqn:Hfind; [|discriminate].
    destruct (includes _ _) eqn:Hinc; [discriminate|].
    destruct (saveDoc _ _ _ _) as [es'|] eqn:Hsave; [|discriminate].
    apply saveDoc_Some in Hsave as (_ & _ & ->). intros [= <- <-].
    pose proof Hfind as (Hi & Hid & _)%list_find_Some.
    replace (findDoc eid (<[i:=_]> es))
      with (Some (i, mkEventDoc (core d) (interestedUsers d ++ [_id u])
                       (interestedCount d + 1))); cycle 1.
    { symmetry. unfold findDoc in *. by apply (list_find_insert_same _ _ _ _ d). }
    simpl. replace (includes _ _) with true; [done|].
    symmetry. apply includes_true, elem_of_app. right. by left.
  - unfold removeFavorite. destruct param as [eid|]; [|discriminate].
    destruct (findDoc eid es) as [[i d]|] eqn:Hfind; [|discriminate].
    destruct (includes _ _) eqn:Hinc; [|discriminate]. simpl.
    destruct (saveDoc _ _ _ _) as [es'|] eqn:Hsave; [|discriminate].
    apply saveDoc_Some in Hsave as (_ & _ & ->). intros [= <- <-].
    pose proof Hfind as (Hi & Hid & _)%list_find_Some.
    match goal with |- context [<[i:=?d1]> es] =>
      replace (findDoc eid (<[i:=d1]> es)) with (Some (i, d1)); cycle 1 end.
    { symmetry. unfold findDoc in *. by apply (list_find_insert_same _ _ _ _ d). }
    simpl. replace (includes _ _) with false; [done|].
    symmetry. apply includes_false, filter_out_gone.
Qed.

Lemma favorite_not_repeated_witness :
  addFavorite bookingWriteFails alice (Some 1)
      [mkEventDoc (concert 10 10) ["bob"; "alice"] 2]
    = (AlreadyInFavorites, [mkEventDoc (concert 10 10) ["bob"; "alice"] 2]).
Proof.
  apply (proj1 (favorite_not_repeated noFaults bookingWriteFails alice (Some 1)
                  [mkEventDoc (concert 10 10) ["bob"] 1] 2
                  [mkEventDoc (concert 10 10) ["bob"; "alice"] 2])).
  reflexivity.
Defined.

(** ** The display fields *)

Lemma some_user_true uid (users : list string) :
  existsb (λ id, String.eqb id uid) users = true ↔ uid ∈ users.
Proof.
  rewrite existsb_exists. split.
  - intros (x & Hx & ->%String.eqb_eq). by apply list_elem_of_In.
  - intros Hin. exists uid. split; [by apply list_elem_of_In|]. apply String.eqb_refl.
Qed.

Lemma bookedEventIds_spec uid bs n :
  n ∈ bookedEventIds uid bs ↔
  ∃ b, b ∈ bs ∧ Booking.user b = uid ∧ Booking.status b = active ∧ Booking.event b = n.
Proof.
  unfold bookedEventIds. rewrite elem_of_list_to_set, list_elem_of_fmap. split.
  - intros (b & -> & (Hp & Hb)%list_elem_of_filter). destruct Hp. by exists b.
  - intros (b & Hb & Hu & Hs & <-). exists b. split; [done|].
    by apply list_elem_of_filter.
Qed.

Lemma getEvent_found user eid es bs i d :
  findDoc eid es = Some (i, d) →
  getEvent user (Some eid) es bs =
    EventJson (Some
      (mkEventView
         (mkFavoriteView (core d) (interestedCount d)
            match user with None => Some (interestedUsers d) | Some _ => None end
            match user with
            | Some u => existsb (λ id, String.eqb id (_id u)) (interestedUsers d)
            | None => false
            end)
         match user with
         | Some u => bool_decide (eid ∈ bookedEventIds (_id u) bs)
         | None => false
         end)).
Proof.
  intros Hfind. pose proof Hfind as (_ & Hid & _)%list_find_Some.
  unfold getEvent. rewrite Hfind. destruct user as [u|]; simpl; [|done].
  by rewrite Hid.
Qed.

(** X13. The favorites route returns, in the order of the collection,
    exactly the events whose [interestedUsers] hold the requester, each
    marked [isFavorite: true] and without the [interestedUsers] key. *)
Theorem getFavorites_lists_the_favorites u es bs :
  (fv_core ∘ fav) <$> getFavorites u es bs
    = core <$> filter (λ d, _id u ∈ interestedUsers d) es ∧
  Forall (λ v, isFavorite (fav v) = true ∧ fv_interestedUsers (fav v) = None)
    (getFavorites u es bs).
Proof.
  unfold getFavorites, addIsBookedField, addIsFavoriteField. split.
  - rewrite <- !list_fmap_compose. by apply list_fmap_ext.
  - rewrite <- list_fmap_compose. apply Forall_fmap, Forall_forall.
    intros d (Hin & _)%list_elem_of_filter. simpl. split; [|done].
    by apply some_user_true.
Qed.

(** X14. The route that returns one event answers, for an id that is
    found, with an object that is never undefined and that carries the
    inventory fields and the count of the stored document;
    [isFavorite] is true exactly when the request has a user who is in
    [interestedUsers], [isBooked] exactly when the request has a user
    with an active booking on this event, and the [interestedUsers] key
    is dropped exactly when the request has a user. *)
Theorem getEvent_view user eid es bs i d :
  findDoc eid es = Some (i, d) →
  ∃ v,
    getEvent user (Some eid) es bs = EventJson (Some v) ∧
    fv_core (fav v) = core d ∧
    fv_interestedCount (fav v) = interestedCount d ∧
    fv_interestedUsers (fav v)
      = match user with None => Some (interestedUsers d) | Some _ => None end ∧
    (isFavorite (fav v) = true ↔ ∃ u, user = Some u ∧ _id u ∈ interestedUsers d) ∧
    (isBooked v = true ↔
       ∃ u b, user = Some u ∧ b ∈ bs ∧ Booking.user b = _id u ∧
              Booking.status b = active ∧ Booking.event b = eid).
Proof.
  intros Hfind. eexists. split; [by apply (getEvent_found _ _ _ _ i d)|].
  simpl. split_and!; try done.
  - destruct user as [u|].
    + rewrite some_user_true. split; [by exists u|]. by intros (u' & [= <-] & Hin).
    + split; [done|]. by intros (u' & [=] & _).
  - destruct user as [u|].
    + rewrite bool_decide_eq_true, bookedEventIds_spec. split.
      * intros (b & ?). by exists u, b.
      * intros (u' & b & [= <-] & ?). by exists b.
    + split; [done|]. by intros (u' & b & [=] & _).
Qed.

Lemma getEvent_view_witness :
  ∃ v,
    getEvent (Some alice) (Some 1) [mkEventDoc (concert 10 7) ["bob"] 1] (bookings booked)
      = EventJson (Some v) ∧
    isFavorite (fav v) = false ∧ isBooked v = true.
Proof.
  destruct (getEvent_view (Some alice) 1 [mkEventDoc (concert 10 7) ["bob"] 1]
              (bookings booked) 0%nat (mkEventDoc (concert 10 7) ["bob"] 1))
    as (v & Hv & _); [reflexivity|].
  exists v. split; [exact Hv|].
  vm_compute in Hv. injection Hv as <-. split; reflexivity.
Defined.

(** X15. Once a create request of a user is answered 201, the event
    route shows the booked event to that user with [isBooked: true],
    whatever the favorite fields of the event are. *)
Theorem booked_event_is_shown_booked fl u body db b db' es i d :
  createBooking fl u body db = (Created b, db') →
  findDoc (Booking.event b) es = Some (i, d) →
  ∃ v,
    getEvent (Some u) (Some (Booking.event b)) es (bookings db') = EventJson (Some v) ∧
    isBooked v = true.
Proof.
  intros Hcreate Hfind.
  eexists. split; [by apply (getEvent_found _ _ _ _ i d)|]. simpl.
  apply bool_decide_eq_true, bookedEventIds_spec. exists b.
  revert Hcreate. case_create; intros [= <- <-].
  apply saveEvent_Some in Hsave as (_ & _ & ->).
  apply saveNewBooking_Some in Hins as (-> & _ & ->). simpl.
  split_and!; try done. apply elem_of_app. right. by left.
Qed.

Lemma booked_event_is_shown_booked_witness :
  ∃ v,
    getEvent (Some alice) (Some 1) [mkEventDoc (concert 10 7) [] 0] (bookings booked)
      = EventJson (Some v) ∧
    isBooked v = true.
Proof.
  apply (booked_event_is_shown_booked noFaults alice (book 3) (venue 10 10)
           (Booking.mk (Some 1) "alice" 1 3 (75 # 1) active) booked
           [mkEventDoc (concert 10 7) [] 0] 0%nat (mkEventDoc (concert 10 7) [] 0));
    reflexivity.
Defined.

(** X16. After a cancel request is answered 200, the event of the
    cancelled booking still counts as booked by its owner exactly when
    the owner holds another active booking on that event. *)
Theorem cancelled_event_is_shown_booked_iff fl u bid db j b r db' :
  findBooking bid db = Some (j, b) →
  cancelBooking fl u (Some bid) db = (r, db') →
  statusCode r = 200 →
  Booking.event b ∈ bookedEventIds (_id u) (bookings db') ↔
  ∃ k b', k ≠ j ∧ bookings db !! k = Some b' ∧ Booking.user b' = _id u ∧
          Booking.status b' = active ∧ Booking.event b' = Booking.event b.
Proof.
  intros Hfindb. unfold cancelBooking. rewrite Hfindb.
  destruct (String.eqb_spec (Booking.user b) (_id u)) as [Hown|]; simpl;
    [|by intros [= <- <-]].
  destruct (Booking.status b) eqn:Hst; [|by intros [= <- <-]].
  destruct (findEvent _ _) as [[i e]|]; [|by intros [= <- <-]].
  destruct (saveEvent _ _ _ _) as [db1|] eqn:Hsave; [|by intros [= <- <-]].
  destruct (saveBooking _ _ _ _) as [db2|] eqn:Hsaveb; [|by intros [= <- <-]].
  intros [= <- <-] _.
  apply saveEvent_Some in Hsave as (_ & _ & ->).
  apply saveBooking_Some in Hsaveb as (_ & _ & ->). simpl.
  apply list_find_Some in Hfindb as (Hj & _).
  rewrite bookedEventIds_spec. split.
  - intros (b' & (k & Hk)%list_elem_of_lookup & Hu & Hs & He).
    apply list_lookup_insert_Some in Hk as [(-> & <- & _)|(Hne & Hk)]; [done|].
    by exists k, b'.
  - intros (k & b' & Hne & Hk & Hu & Hs & He). exists b'. split; [|done].
    apply list_elem_of_lookup. exists k. by rewrite list_lookup_insert_ne.
Qed.

Lemma cancelled_event_is_shown_booked_iff_witness :
  1 ∈ bookedEventIds "alice" (bookings afterCancel) ↔
  ∃ k b', k ≠ 0%nat ∧ bookings booked !! k = Some b' ∧ Booking.user b' = "alice" ∧
          Booking.status b' = active ∧ Booking.event b' = 1.
Proof.
  apply (cancelled_event_is_shown_booked_iff noFaults alice 1 booked 0%nat
           (Booking.mk (Some 1) "alice" 1 3 (75 # 1) active)
           (CancelledOk (Booking.mk (Some 1) "alice" 1 3 (75 # 1) cancelled))
           afterCancel); reflexivity.
Defined.

(** ** Paging *)

Lemma orDefault_positive d parsed :
  1 ≤ d → (∀ n, parsed = Some n → 0 ≤ n) → 1 ≤ orDefault d parsed.
Proof.
  intros Hd Hpos. unfold orDefault. destruct parsed as [n|]; [|done].
  specialize (Hpos n eq_refl). destruct (Z.eqb_spec n 0); lia.
Qed.

Lemma totalPages_covers total limit :
  1 ≤ limit → 0 ≤ total →
  0 ≤ totalPages total limit ∧
  (totalPages total limit - 1) * limit < total ≤ totalPages total limit * limit
  ∨ total = 0 ∧ totalPages total limit = 0.
Proof.
  intros Hl Ht. unfold totalPages.
  pose proof (Z.div_mod (- total) limit ltac:(lia)) as Hdm.
  pose proof (Z.mod_pos_bound (- total) limit ltac:(lia)) as Hmod.
  destruct (decide (total = 0)) as [->|Hne].
  - right. split; [done|]. simpl. by rewrite Z.div_0_l by lia.
  - left. nia.
Qed.

Lemma pageSlice_positive {A} (docs : list A) page limit :
  1 ≤ limit → 1 ≤ page →
  pageSlice docs page limit
    = Some (take (Z.to_nat limit) (drop (Z.to_nat (page - 1) * Z.to_nat limit) docs)).
Proof.
  intros Hl Hp. unfold pageSlice, skipOf.
  destruct (Z.ltb_spec ((page - 1) * limit) 0) as [Hneg|_]; [nia|].
  destruct (Z.ltb_spec limit 0); [lia|]. simpl.
  by rewrite Z2Nat.inj_mul by lia.
Qed.

Lemma pagesUpTo_take {A} (docs : list A) limit n :
  1 ≤ limit →
  concat (pagesUpTo docs limit n) = take (n * Z.to_nat limit) docs.
Proof.
  intros Hl. unfold pagesUpTo. induction n as [|n IH]; [done|].
  rewrite seq_S, fmap_app, concat_app, IH. simpl.
  rewrite pageSlice_positive by lia. simpl. rewrite app_nil_r.
  replace (Z.to_nat (Z.of_nat (S n) - 1)) with n by lia.
  rewrite take_take_drop. f_equal. lia.
Qed.

(** X17. With a limit that reads as a non-negative number (or not as a
    number at all, which gives the default 10), the pages 1 to
    [totalPages] that the paged routes return, put one after the other,
    are the documents the query finds, each once and in order. *)
Theorem pages_cover_the_documents {A} (docs : list A) parsedLimit :
  (∀ n, parsedLimit = Some n → 0 ≤ n) →
  let limit := limitOf parsedLimit in
  concat (pagesUpTo docs limit (Z.to_nat (totalPages (Z.of_nat (length docs)) limit)))
    = docs.
Proof.
  intros Hpos limit.
  assert (1 ≤ limit) as Hl by (by apply orDefault_positive).
  rewrite pagesUpTo_take by done. apply take_ge.
  destruct (totalPages_covers (Z.of_nat (length docs)) limit Hl ltac:(lia))
    as [[Htp Hb]|[H0 _]]; [|lia].
  nia.
Qed.

Lemma pages_cover_the_documents_witness :
  concat (pagesUpTo [1; 2; 3; 4; 5] (limitOf (Some 2))
            (Z.to_nat (totalPages (Z.of_nat (length [1; 2; 3; 4; 5])) (limitOf (Some 2)))))
    = [1; 2; 3; 4; 5].
Proof.
  apply (pages_cover_the_documents [1; 2; 3; 4; 5] (Some 2)).
  intros n [= <-]. lia.
Defined.

(** X18. For a page and a limit that read as non-negative numbers (0 or
    no number giving page 1 and limit 10), the paged routes return
    [min(limit, max(0, total - skip))] documents, and the page is empty
    exactly when its number is above [totalPages]. *)
Theorem page_length_and_last_page {A} (docs : list A) parsedPage parsedLimit :
  (∀ n, parsedPage = Some n → 0 ≤ n) →
  (∀ n, parsedLimit = Some n → 0 ≤ n) →
  let page := pageOf parsedPage in
  let limit := limitOf parsedLimit in
  let total := Z.of_nat (length docs) in
  ∃ l,
    pageSlice docs page limit = Some l ∧
    Z.of_nat (length l) = limit `min` (0 `max` (total - skipOf page limit)) ∧
    (l = [] ↔ totalPages total limit < page).
Proof.
  intros Hp Hl page limit total.
  assert (1 ≤ page) as Hpage by (by apply orDefault_positive).
  assert (1 ≤ limit) as Hlimit by (by apply orDefault_positive).
  eexists. split; [by apply pageSlice_positive|].
  assert (Z.of_nat (length (take (Z.to_nat limit)
                              (drop (Z.to_nat (page - 1) * Z.to_nat limit) docs)))
          = limit `min` (0 `max` (total - skipOf page limit))) as Hlen.
  { rewrite length_take, length_drop. unfold skipOf. subst total. nia. }
  split; [done|].
  rewrite <- length_zero_iff_nil.
  destruct (totalPages_covers total limit Hlimit ltac:(lia)) as [[Htp Hb]|[H0 Htp]];
    unfold skipOf in Hlen; split; intros; nia.
Qed.

Lemma page_length_and_last_page_witness :
  ∃ l,
    pageSlice [1; 2; 3; 4; 5] (pageOf (Some 3)) (limitOf (Some 2)) = Some l ∧
    Z.of_nat (length l)
      = limitOf (Some 2)
          `min` (0 `max` (Z.of_nat (length [1; 2; 3; 4; 5])
                           - skipOf (pageOf (Some 3)) (limitOf (Some 2)))) ∧
    (l = [] ↔ totalPages (Z.of_nat (length [1; 2; 3; 4; 5])) (limitOf (Some 2))
              < pageOf (Some 3)).
Proof.
  apply (page_length_and_last_page [1; 2; 3; 4; 5] (Some 3) (Some 2));
    intros n [= <-]; lia.
Defined.

(** ** The inventory equation across all routes *)





